(** * Verification of [1million.py]: CSV filter, batched upsert, report.

    Shallow embedding of the script [src/1Million Python 3/1million.py].
    Python exceptions and side effects (stdout, database calls) are threaded
    through a small state-and-exception monad over a [world]; the PostgreSQL
    server is modelled by a working table, a committed table, the SERIAL
    sequence and a connection that may drop after a number of statements. *)

From Stdlib Require Import Ascii ZArith Lia Sorted Permutation.
From stdpp Require Import base list gmap strings.
Open Scope string_scope.

(* ------------------------------------------------------------------ *)
(** ** Python values and exceptions *)

(** A value of a [csv.DictReader] row: a [str], or [None] (the reader's
    [restval] for a row shorter than its header). *)
Abbreviation pyval := (option string).

(** The exception classes the script can meet.  [IntegrityError],
    [DataError], [ProgrammingError], [OperationalError] and [InterfaceError]
    are psycopg2's; [ReadError] stands for a decoding or [csv.Error] raised
    while iterating the file. *)
Inductive exn :=
| FileNotFoundError
| AttributeError
| ReadError
| IntegrityError
| DataError
| ProgrammingError
| OperationalError
| InterfaceError.

Definition exn_eq_dec : forall x y : exn, {x = y} + {x <> y}.
Proof. decide equality. Defined.

(** [DATA_TUPLE] built at lines 114-126, in the order of [DB_COLUMNS]. *)
Record tuple := mkTuple {
  t_customer_id : pyval; t_first_name : pyval; t_last_name : pyval;
  t_company : pyval; t_city : pyval; t_country : pyval;
  t_phone_1 : pyval; t_phone_2 : pyval; t_email : pyval;
  t_subscription_date : pyval; t_website : pyval }.

(** A row of table [customers] without its surrogate key; a DATE is kept
    as its day number. *)
Record crow := mkCrow {
  c_customer_id : string; c_first_name : option string;
  c_last_name : option string; c_company : option string;
  c_city : option string; c_country : option string;
  c_phone_1 : option string; c_phone_2 : option string;
  c_email : option string; c_subscription_date : option N;
  c_website : option string }.

(** A stored row: the [SERIAL PRIMARY KEY] [id] and the other columns. *)
Record srow := mkSrow { s_id : nat; s_row : crow }.

Abbreviation table := (list srow).

(** Database calls as issued by the script, in order. *)
Inductive stmt := StCreate | StSelect.

Inductive dbop :=
| OpConnect
| OpExec (s : stmt)
| OpExecMany (b : list tuple)
| OpCommit
| OpRollback
| OpClose.

(** Lines printed on stdout (a multi-line [print] is one event). *)
Inductive line :=
| LConnected
| LSetupOk
| LSetupError (e : exn)
| LStart (fname : string)
| LBatch (n processed : nat)
| LFinalBatch (n : nat)
| LComplete
| LProcessed (n : nat)
| LInserted (n : nat)
| LNotFound (fname : string)
| LLoadError (e : exn)
| LCommitted
| LQueryHeader
| LNoMatch
| LCustomer (s : string)
| LQueryError (e : exn)
| LConnError (e : exn)
| LRollingBack (e : exn)
| LClosed.

(** A file as the [csv] module splits it into records, and whether reading
    fails (a [ReadError]) after the last record. *)
Record file := mkFile { f_records : list (list string); f_read_error : bool }.

Record world := mkWorld {
  w_fs : string -> option file;   (** [open] raises FileNotFoundError on [None] *)
  w_server_up : bool;             (** [psycopg2.connect] succeeds *)
  w_drop : option nat;            (** statements served before the link drops *)
  w_conn : bool;                  (** [conn] is an open connection *)
  w_tbl : option table;           (** [customers] as seen by the open transaction *)
  w_committed : option table;     (** [customers] as committed *)
  w_seq : nat;                    (** the SERIAL sequence (not transactional) *)
  w_ops : list dbop;
  w_out : list line;
  w_closed : bool }.              (** psycopg2's [conn.closed]: set once a lost
                                      link has been reported, and by [close] *)

(* ------------------------------------------------------------------ *)
(** ** The monad *)

Definition M (A : Type) : Type := world -> (A + exn) * world.

Definition ret {A} (a : A) : M A := fun w => (inl a, w).
Definition raise {A} (e : exn) : M A := fun w => (inr e, w).
Definition bind {A B} (m : M A) (k : A -> M B) : M B := fun w =>
  match m w with
  | (inl a, w') => k a w'
  | (inr e, w') => (inr e, w')
  end.
(** [try: m except: h] for a handler that inspects the exception. *)
Definition try_except {A} (m : M A) (h : exn -> M A) : M A := fun w =>
  match m w with
  | (inr e, w') => h e w'
  | r => r
  end.
(** [try: m finally: fin]. *)
Definition try_finally {A} (m : M A) (fin : M unit) : M A := fun w =>
  match m w with
  | (r, w1) =>
      match fin w1 with
      | (inl _, w2) => (r, w2)
      | (inr e, w2) => (inr e, w2)
      end
  end.

Notation "x <- m ;; k" := (bind m (fun x => k))
  (at level 100, m at next level, right associativity).
Notation "m ;;; k" := (bind m (fun _ => k))
  (at level 100, right associativity).

Definition modify (f : world -> world) : M unit := fun w => (inl tt, f w).
Definition gets {A} (f : world -> A) : M A := fun w => (inl (f w), w).

Definition set_out (o : list line) (w : world) : world :=
  mkWorld (w_fs w) (w_server_up w) (w_drop w) (w_conn w) (w_tbl w)
    (w_committed w) (w_seq w) (w_ops w) o (w_closed w).
Definition set_ops (o : list dbop) (w : world) : world :=
  mkWorld (w_fs w) (w_server_up w) (w_drop w) (w_conn w) (w_tbl w)
    (w_committed w) (w_seq w) o (w_out w) (w_closed w).
Definition set_db (drop : option nat) (tbl : option table) (seq : nat)
    (w : world) : world :=
  mkWorld (w_fs w) (w_server_up w) drop (w_conn w) tbl
    (w_committed w) seq (w_ops w) (w_out w) (w_closed w).
Definition set_tx (conn : bool) (tbl committed : option table)
    (w : world) : world :=
  mkWorld (w_fs w) (w_server_up w) (w_drop w) conn tbl committed
    (w_seq w) (w_ops w) (w_out w) (w_closed w).
Definition set_closed (c : bool) (w : world) : world :=
  mkWorld (w_fs w) (w_server_up w) (w_drop w) (w_conn w) (w_tbl w)
    (w_committed w) (w_seq w) (w_ops w) (w_out w) c.

Definition print (l : line) : M unit :=
  modify (fun w => set_out (w_out w ++ [l]) w).
Definition log_op (o : dbop) : M unit :=
  modify (fun w => set_ops (w_ops w ++ [o]) w).

(* ------------------------------------------------------------------ *)
(** ** The PostgreSQL side *)

Section Script.

(** The server's DATE input function on a string literal, and Python's
    [str] of a [datetime.date] fetched back; both are external to the
    script and left abstract. *)
Variable date_in : string -> option N.
Variable date_out : N -> string.

Fixpoint all_spaces (s : string) : bool :=
  match s with
  | EmptyString => true
  | String c s' => Ascii.eqb c " "%char && all_spaces s'
  end.

(** Input to a [VARCHAR(n)] column: too long is an error unless the excess
    characters are all spaces, which are then cut off. *)
Definition varchar_str (n : nat) (s : string) : option string :=
  if Nat.leb (String.length s) n then Some s
  else if all_spaces (String.substring n (String.length s - n) s)
  then Some (String.substring 0 n s) else None.

Definition varchar (n : nat) (v : pyval) : option (option string) :=
  match v with None => Some None | Some s => Some <$> varchar_str n s end.

Definition date_col (v : pyval) : option (option N) :=
  match v with None => Some None | Some s => Some <$> date_in s end.

(** The parameters of one [INSERT] converted to the column types, before
    the statement runs: [None] when one fails (a [DataError]); otherwise
    the [customer_id] value and the row it completes. *)
Definition convert (t : tuple) : option (option string * (string -> crow)) :=
  cid ← varchar 100 (t_customer_id t);
  fn ← varchar 255 (t_first_name t);
  ln ← varchar 255 (t_last_name t);
  co ← varchar 255 (t_company t);
  ci ← varchar 255 (t_city t);
  cn ← varchar 255 (t_country t);
  p1 ← varchar 100 (t_phone_1 t);
  p2 ← varchar 100 (t_phone_2 t);
  em ← varchar 255 (t_email t);
  sd ← date_col (t_subscription_date t);
  we ← varchar 255 (t_website t);
  Some (cid, fun c => mkCrow c fn ln co ci cn p1 p2 em sd we).

(** The row of [customers] one [INSERT] would write: a failed conversion is
    a [DataError], a null [customer_id] ([NOT NULL]) an [IntegrityError]. *)
Definition to_crow (t : tuple) : crow + exn :=
  match convert t with
  | None => inr DataError
  | Some (None, _) => inr IntegrityError
  | Some (Some c, mk) => inl (mk c)
  end.

(** [ON CONFLICT (customer_id) DO UPDATE SET first_name = EXCLUDED.first_name,
    ..., website = EXCLUDED.website] (lines 76-86). *)
Definition do_update (old ex : crow) : crow :=
  mkCrow (c_customer_id old) (c_first_name ex) (c_last_name ex)
    (c_company ex) (c_city ex) (c_country ex) (c_phone_1 ex) (c_phone_2 ex)
    (c_email ex) (c_subscription_date ex) (c_website ex).

Definition same_key (r : crow) (x : srow) : bool :=
  String.eqb (c_customer_id (s_row x)) (c_customer_id r).

Definition update_row (r : crow) (x : srow) : srow :=
  if same_key r x then mkSrow (s_id x) (do_update (s_row x) r) else x.

(** The upsert statement on the table, [nid] being the [nextval] drawn for
    the [SERIAL] column: a row whose [customer_id] is stored updates that
    row ([ON CONFLICT (customer_id)]); otherwise the new row is inserted,
    which the [PRIMARY KEY] on [id] refuses ([None], an [IntegrityError])
    when a stored row already has the id [nid]. *)
Definition upsert (t : table) (nid : nat) (r : crow) : option table :=
  if existsb (same_key r) t then Some (map (update_row r) t)
  else if existsb (fun x => Nat.eqb (s_id x) nid) t then None
  else Some (t ++ [mkSrow nid r])%list.

(** A call on a connection psycopg2 has marked closed raises
    [InterfaceError].  A call on a dropped link raises [OperationalError],
    and psycopg2 then marks the connection closed; a statement served
    counts down the link's remaining budget. *)
Definition link_ok : M unit := fun w =>
  if w_closed w then (inr InterfaceError, w) else
  match w_drop w with
  | Some 0 => (inr OperationalError, set_closed true w)
  | _ => (inl tt, w)
  end.

Definition consume : M unit := fun w =>
  if w_closed w then (inr InterfaceError, w) else
  match w_drop w with
  | Some 0 => (inr OperationalError, set_closed true w)
  | Some (S n) => (inl tt, set_db (Some n) (w_tbl w) (w_seq w) w)
  | None => (inl tt, w)
  end.

(** [conn.cursor()]. *)
Definition cursor_ok : M unit := fun w =>
  if w_closed w then (inr InterfaceError, w) else (inl tt, w).

(** The largest value of the [integer] sequence behind [SERIAL]. *)
Definition SEQ_MAX : N := 2147483647.

(** [nextval] of that sequence: past its maximum it raises a [DataError]. *)
Definition nextval : M nat := fun w =>
  if (N.of_nat (w_seq w) <? SEQ_MAX)%N
  then (inl (S (w_seq w)), set_db (w_drop w) (w_tbl w) (S (w_seq w)) w)
  else (inr DataError, w).

(** [cur.execute(sql_insert, t)]: the parameters are converted when the
    statement is planned; running it draws the [id] default, checks
    [customer_id NOT NULL], then inserts or updates. *)
Definition exec_upsert (t : tuple) : M unit :=
  consume;;;
  tbl <- gets w_tbl;;
  match tbl with
  | None => raise ProgrammingError
  | Some tb =>
      match convert t with
      | None => raise DataError
      | Some (cid, mk) =>
          nid <- nextval;;
          match cid with
          | None => raise IntegrityError
          | Some c =>
              match upsert tb nid (mk c) with
              | None => raise IntegrityError
              | Some tb' => modify (fun w => set_db (w_drop w) (Some tb') (w_seq w) w)
              end
          end
      end
  end.

Fixpoint exec_each (b : list tuple) : M unit :=
  match b with
  | [] => ret tt
  | t :: b' => exec_upsert t;;; exec_each b'
  end.

(** [cur.executemany(sql_insert, batch)]: one call, one statement per tuple. *)
Definition executemany (b : list tuple) : M unit :=
  log_op (OpExecMany b);;; cursor_ok;;; exec_each b.

(** [CREATE TABLE IF NOT EXISTS customers (...)]. *)
Definition db_create : M unit :=
  log_op (OpExec StCreate);;; consume;;;
  modify (fun w => set_db (w_drop w)
    (match w_tbl w with None => Some [] | t => t end) (w_seq w) w).

Definition db_commit : M unit :=
  log_op OpCommit;;; link_ok;;;
  modify (fun w => set_tx (w_conn w) (w_tbl w) (w_tbl w) w).

Definition db_rollback : M unit :=
  log_op OpRollback;;; link_ok;;;
  modify (fun w => set_tx (w_conn w) (w_committed w) (w_committed w) w).

(** [conn.close()]: the server discards an open transaction; closing a
    connection already marked closed does nothing more. *)
Definition db_close : M unit :=
  log_op OpClose;;;
  modify (fun w => set_closed true (set_tx false (w_committed w) (w_committed w) w)).

Definition db_connect : M unit :=
  log_op OpConnect;;;
  up <- gets w_server_up;;
  if up then modify (fun w => set_closed false (set_tx true (w_tbl w) (w_committed w) w))
  else raise OperationalError.

(* ------------------------------------------------------------------ *)
(** ** [csv.DictReader] *)

(** [dict(...)] from key/value pairs: a later pair overwrites an earlier one. *)
Definition dict_of (kvs : list (string * pyval)) : gmap string pyval :=
  fold_left (fun m kv => <[kv.1 := kv.2]> m) kvs ∅.

(** [d = dict(zip(fieldnames, row))]; header keys past the end of a short
    row get [restval = None].  The [restkey] entry of a long row has key
    [None], which the script never looks up, and is left out. *)
Definition dict_row (hdr cells : list string) : gmap string pyval :=
  dict_of (combine hdr (map Some cells)
           ++ map (fun k => (k, None)) (drop (length cells) hdr)).

(** The first record is the header; empty records are skipped. *)
Definition dict_reader (recs : list (list string)) : list (gmap string pyval) :=
  match recs with
  | [] => []
  | hdr :: data =>
      map (dict_row hdr)
        (List.filter (fun c => match c with [] => false | _ => true end) data)
  end.

(* ------------------------------------------------------------------ *)
(** ** [process_and_insert_csv] (lines 53-151) *)

Definition CSV_HEADERS : list string :=
  ["Index"; "Customer Id"; "First Name"; "Last Name"; "Company"; "City";
   "Country"; "Phone 1"; "Phone 2"; "Email"; "Subscription Date"; "Website"].

(** [row.get(k, d)]. *)
Definition row_get (row : gmap string pyval) (k : string) (d : pyval) : pyval :=
  match row !! k with Some v => v | None => d end.

(** [v.startswith(p)]: [None] has no [startswith]. *)
Definition py_startswith (v : pyval) (p : string) : M bool :=
  match v with None => raise AttributeError | Some s => ret (String.prefix p s) end.

(** [if not sub_date: sub_date = None]. *)
Definition norm_date (v : pyval) : pyval :=
  match v with Some EmptyString => None | _ => v end.

Definition build_tuple (row : gmap string pyval) (first_name last_name : pyval)
    : tuple :=
  mkTuple (row_get row "Customer Id" None) first_name last_name
    (row_get row "Company" None) (row_get row "City" None)
    (row_get row "Country" None) (row_get row "Phone 1" None)
    (row_get row "Phone 2" None) (row_get row "Email" None)
    (norm_date (row_get row "Subscription date" None))
    (row_get row "Website" None).

Record lstate := mkL {
  batch : list tuple; total_processed : nat; total_inserted : nat }.

(** [first_name.startswith('A') and last_name.startswith('F')] (line 107). *)
Definition name_test (first_name last_name : pyval) : M bool :=
  a <- py_startswith first_name "A";;
  if a then py_startswith last_name "F" else ret false.

(** One iteration of [for row in reader:] (lines 101-135). *)
Definition process_row (batch_size : Z) (st : lstate)
    (row : gmap string pyval) : M lstate :=
  let processed := S (total_processed st) in
  let first_name := row_get row "First Name" (Some "") in
  let last_name := row_get row "Last Name" (Some "") in
  keep <- name_test first_name last_name;;
  let st1 :=
    if keep then mkL (batch st ++ [build_tuple row first_name last_name])
                     processed (S (total_inserted st))
    else mkL (batch st) processed (total_inserted st) in
  if (batch_size <=? Z.of_nat (length (batch st1)))%Z then
    executemany (batch st1);;;
    print (LBatch (length (batch st1)) processed);;;
    ret (mkL [] processed (total_inserted st1))
  else ret st1.

Fixpoint insert_rows (batch_size : Z) (rows : list (gmap string pyval))
    (st : lstate) : M lstate :=
  match rows with
  | [] => ret st
  | row :: rows' => st' <- process_row batch_size st row;;
                    insert_rows batch_size rows' st'
  end.

Definition open_file (fname : string) : M file := fun w =>
  match w_fs w fname with
  | None => (inr FileNotFoundError, w)
  | Some f => (inl f, w)
  end.

(** The [try] block of the loader (lines 92-146). *)
Definition load_body (csv_filename : string) (batch_size : Z) : M unit :=
  f <- open_file csv_filename;;
  st <- insert_rows batch_size (dict_reader (f_records f)) (mkL [] 0 0);;
  (if f_read_error f then raise ReadError else ret tt);;;
  match batch st with
  | [] => ret tt
  | b => executemany b;;; print (LFinalBatch (length b))
  end;;;
  print LComplete;;;
  print (LProcessed (total_processed st));;;
  print (LInserted (total_inserted st)).

(** Its handlers (lines 147-151). *)
Definition load_handler (csv_filename : string) (e : exn) : M unit :=
  match e with
  | FileNotFoundError => print (LNotFound csv_filename)
  | _ => print (LLoadError e);;; raise e
  end.

Definition process_and_insert_csv (csv_filename : string) (batch_size : Z)
    : M unit :=
  print (LStart csv_filename);;;
  try_except (load_body csv_filename batch_size) (load_handler csv_filename).

(* ------------------------------------------------------------------ *)
(** ** [setup_database] (lines 17-48) *)

Definition setup_database : M unit :=
  try_except (db_create;;; db_commit;;; print LSetupOk)
    (fun e => db_rollback;;; print (LSetupError e);;; raise e).

(* ------------------------------------------------------------------ *)
(** ** [get_filtered_customers] (lines 154-181) *)

(** A result row [(first_name, last_name, company, subscription_date)]. *)
Record qrow := mkQ {
  q_first : option string; q_last : option string;
  q_company : option string; q_date : option N }.

Definition project (r : crow) : qrow :=
  mkQ (c_first_name r) (c_last_name r) (c_company r) (c_subscription_date r).

(** [col LIKE 'p%']; NULL never matches. *)
Definition like_prefix (p : string) (v : option string) : bool :=
  match v with None => false | Some s => String.prefix p s end.

Definition where_clause (r : crow) : bool :=
  like_prefix "A" (c_first_name r) && like_prefix "F" (c_last_name r).

(** [ORDER BY subscription_date DESC]: PostgreSQL puts NULLs first. *)
Definition date_desc (a b : option N) : bool :=
  match a, b with
  | None, _ => true
  | Some _, None => false
  | Some x, Some y => (y <=? x)%N
  end.

Fixpoint insert_desc (q : qrow) (l : list qrow) : list qrow :=
  match l with
  | [] => [q]
  | h :: t => if date_desc (q_date q) (q_date h) then q :: l
              else h :: insert_desc q t
  end.

(** The query of lines 159-164; the server's sort is any one sorting the
    rows this way, insertion sort here. *)
Definition sql_select (t : table) : list qrow :=
  fold_right insert_desc [] (map project (List.filter where_clause (map s_row t))).

Definition db_select : M (list qrow) :=
  log_op (OpExec StSelect);;; consume;;;
  tbl <- gets w_tbl;;
  match tbl with None => raise ProgrammingError | Some t => ret (sql_select t) end.

(** Python's [str] of a fetched value. *)
Definition py_str (v : option string) : string :=
  match v with None => "None" | Some s => s end.
Definition py_str_date (v : option N) : string :=
  match v with None => "None" | Some d => date_out d end.

(** [f"Name: {row[0]} {row[1]}, Company: {row[2]}, Subscribed: {row[3]}"]. *)
Definition fmt_customer (r : qrow) : string :=
  "Name: " ++ py_str (q_first r) ++ " " ++ py_str (q_last r) ++
  ", Company: " ++ py_str (q_company r) ++ ", Subscribed: " ++ py_str_date (q_date r).

Fixpoint print_all (ls : list line) : M unit :=
  match ls with [] => ret tt | l :: ls' => print l;;; print_all ls' end.

Definition get_filtered_customers : M unit :=
  print LQueryHeader;;;
  try_except
    (results <- db_select;;
     match results with
     | [] => print LNoMatch
     | _ => print_all (map (fun r => LCustomer (fmt_customer r)) results)
     end)
    (fun e => print (LQueryError e)).

(* ------------------------------------------------------------------ *)
(** ** The main block (lines 184-220) *)

Definition CSV_FILE_TO_PROCESS : string := "customers.csv".

Definition main_block : M unit :=
  try_finally
    (try_except
       (db_connect;;; print LConnected;;;
        setup_database;;;
        process_and_insert_csv CSV_FILE_TO_PROCESS 1000;;;
        db_commit;;; print LCommitted;;;
        get_filtered_customers)
       (fun e => if exn_eq_dec e OperationalError then print (LConnError e)
                 else print (LRollingBack e);;;
                      c <- gets w_conn;; if c then db_rollback else ret tt))
    (c <- gets w_conn;; if c then db_close;;; print LClosed else ret tt).

End Script.

(* ------------------------------------------------------------------ *)
(** ** Reference notions used in the statements *)

Close Scope string_scope.

Definition py_str_or_empty (v : pyval) : string :=
  match v with Some s => s | None => ""%string end.

(** The filter of the spec, a missing or [None] name read as [""]. *)
Definition name_ok (first_name last_name : pyval) : bool :=
  String.prefix "A"%string (py_str_or_empty first_name)
  && String.prefix "F"%string (py_str_or_empty last_name).

Definition first_name_of (row : gmap string pyval) : pyval :=
  row_get row "First Name"%string (Some ""%string).
Definition last_name_of (row : gmap string pyval) : pyval :=
  row_get row "Last Name"%string (Some ""%string).

Definition passes (row : gmap string pyval) : bool :=
  name_ok (first_name_of row) (last_name_of row).

(** The normalized tuples of the rows that pass, in source order. *)
Definition kept_tuples (rows : list (gmap string pyval)) : list tuple :=
  map (fun r => build_tuple r (first_name_of r) (last_name_of r))
      (List.filter passes rows).

Definition key (x : srow) : string := c_customer_id (s_row x).

(** Upserting the rows [cs] one after the other, [s] the sequence value. *)
Fixpoint upsert_all (t : table) (s : nat) (cs : list crow) : option table :=
  match cs with
  | [] => Some t
  | r :: cs' =>
      match upsert t (S s) r with
      | Some t' => upsert_all t' (S s) cs'
      | None => None
      end
  end.

(** The last row of [cs] with customer id [k]. *)
Fixpoint lastk (cs : list crow) (k : string) : option crow :=
  match cs with
  | [] => None
  | r :: cs' =>
      match lastk cs' k with
      | Some r' => Some r'
      | None => if String.eqb (c_customer_id r) k then Some r else None
      end
  end.

Definition fold_updates (cs : list crow) (x : srow) : srow :=
  fold_left (fun x r => update_row r x) cs x.


(** The table and sequence after the statements of [ts] when all of them
    succeed on a link that does not drop, [None] if one fails. *)
Fixpoint apply_tuples (date_in : string -> option N) (st : option table * nat)
    (ts : list tuple) : option (option table * nat) :=
  match ts with
  | [] => Some st
  | t :: ts' =>
      match st.1, to_crow date_in t with
      | Some tb, inl r =>
          if (N.of_nat st.2 <? SEQ_MAX)%N then
            match upsert tb (S st.2) r with
            | Some tb' => apply_tuples date_in (Some tb', S st.2) ts'
            | None => None
            end
          else None
      | _, _ => None
      end
  end.

(** Successful runs on a link that does not drop: the calls issued and the
    table they leave. *)
Definition tracks (date_in : string -> option N) {A} (m : M A) : Prop :=
  forall w a w', w_drop w = None -> m w = (inl a, w') ->
  w_drop w' = None /\ w_fs w' = w_fs w /\ w_closed w' = w_closed w /\
  exists calls, w_ops w' = w_ops w ++ map OpExecMany calls /\
    apply_tuples date_in (w_tbl w, w_seq w) (concat calls) = Some (w_tbl w', w_seq w').

(** A successful run of [m] on a link that does not drop, replayed from a
    world [v] with the same files on an open connection: when the
    statements it issued succeed on [v]'s table too, the replay returns the
    same value, issues the same calls and leaves the table and sequence
    those statements leave. *)
Definition replay (date_in : string -> option N) {A} (m : M A) : Prop :=
  forall w a w' calls v st',
  w_drop w = None -> m w = (inl a, w') -> w_ops w' = w_ops w ++ map OpExecMany calls ->
  w_drop v = None -> w_closed v = false -> w_fs v = w_fs w ->
  apply_tuples date_in (w_tbl v, w_seq v) (concat calls) = Some st' ->
  exists v', m v = (inl a, v') /\ w_drop v' = None /\ w_closed v' = false /\
    w_fs v' = w_fs v /\ w_ops v' = w_ops v ++ map OpExecMany calls /\
    (w_tbl v', w_seq v') = st'.

(** The order of [ORDER BY subscription_date DESC] between result rows. *)
Definition desc_rel (a b : qrow) : Prop := date_desc (q_date a) (q_date b) = true.

(** Every run of [m], normal or not, goes from [w] to a world related by [R]. *)
Definition preserves (R : world -> world -> Prop) {A} (m : M A) : Prop :=
  forall w r w', m w = (r, w') -> R w w'.

(** Every run of [m] that raises goes to a world related by [R]. *)
Definition preserves_err (R : world -> world -> Prop) {A} (m : M A) : Prop :=
  forall w e w', m w = (inr e, w') -> R w w'.

Class WPreorder (R : world -> world -> Prop) := {
  wp_refl : forall w, R w w;
  wp_trans : forall w1 w2 w3, R w1 w2 -> R w2 w3 -> R w1 w3 }.

(** The lines printed on the way are not [LCommitted]. *)
Definition keeps_out (w w' : world) : Prop :=
  exists new, w_out w' = w_out w ++ new /\ ~ In LCommitted new.

(** ... and the connection stays as it was. *)
Definition keeps_conn_out (w w' : world) : Prop :=
  w_conn w' = w_conn w /\ keeps_out w w'.

(** The connection and the committed table stay as they were. *)
Definition keeps_commit (w w' : world) : Prop :=
  w_conn w' = w_conn w /\ w_committed w' = w_committed w.

(** The database calls made on the way are [executemany] calls. *)
Definition only_execmany (w w' : world) : Prop :=
  exists calls, w_ops w' = w_ops w ++ map OpExecMany calls.

(** The connection, the working table and the committed table stay as they
    were. *)
Definition keeps_data (w w' : world) : Prop :=
  w_conn w' = w_conn w /\ w_tbl w' = w_tbl w /\ w_committed w' = w_committed w.

(** The connection stays as it was. *)
Definition keeps_conn (w w' : world) : Prop := w_conn w' = w_conn w.

(** A stored row's [id] and [customer_id]. *)
(* ------------------------------------------------------------------ *)
(** ** Concrete inputs *)

(** A server DATE input function for ISO dates [YYYY-MM-DD], giving the
    number YYYYMMDD, and the matching [str] of a fetched date. *)
Definition digit_of (c : ascii) : option N :=
  let n := N_of_ascii c in
  if (48 <=? n)%N && (n <=? 57)%N then Some (n - 48)%N else None.

Fixpoint digits_val (s : string) (acc : N) : option N :=
  match s with
  | EmptyString => Some acc
  | String c s' =>
      match digit_of c with
      | Some d => digits_val s' (acc * 10 + d)%N
      | None => None
      end
  end.

Definition is_dash (c : option ascii) : bool :=
  match c with Some c => Ascii.eqb c "-"%char | None => false end.

Definition iso_date_in (s : string) : option N :=
  if (String.length s =? 10) && is_dash (String.get 4 s) && is_dash (String.get 7 s)
  then digits_val (String.substring 0 4 s ++ String.substring 5 2 s
                   ++ String.substring 8 2 s)%string 0
  else None.

Definition digit_char (n : N) : ascii := ascii_of_N (48 + n mod 10).

Definition pad2 (n : N) : string :=
  String (digit_char (n / 10)) (String (digit_char n) EmptyString).

Definition iso_date_out (d : N) : string :=
  (pad2 (d / 1000000) ++ pad2 (d / 10000) ++ "-" ++ pad2 (d / 100) ++ "-"
   ++ pad2 d)%string.

Definition ex_row (idx cid first last company date : string) : list string :=
  [idx; cid; first; last; company; ""; ""; ""; ""; ""; date; ""]%string.

(** The source of the spec's example: Alice Fox with a subscription date,
    then Bob Fox. *)
Definition ex_file : file :=
  mkFile [CSV_HEADERS;
          ex_row "1" "1" "Alice" "Fox" "Acme" "2020-01-01";
          ex_row "2" "2" "Bob" "Fox" "" ""]%string false.

(** A short first record (no Last Name cell), then an A/F row. *)
Definition short_file : file :=
  mkFile [CSV_HEADERS;
          ["1"; "1"; "Alice"];
          ex_row "2" "2" "Alice" "Fox" "Acme" "2020-01-01"]%string false.

(** Two A/F rows, loaded in one batch. *)
Definition pair_file : file :=
  mkFile [CSV_HEADERS;
          ex_row "1" "1" "Alice" "Fox" "Acme" "2020-01-01";
          ex_row "2" "2" "Anna" "Ford" "Initech" "2021-06-30"]%string false.

(** Two A/F rows with the same Customer Id and different companies. *)
Definition dup_file : file :=
  mkFile [CSV_HEADERS;
          ex_row "1" "1" "Alice" "Fox" "Acme" "";
          ex_row "2" "1" "Alice" "Fox" "Globex" ""]%string false.

(** A fresh server with no [customers] table, [customers.csv] holding [f],
    and a link that serves [drop] more statements ([None]: never drops). *)
Definition world_of (f : file) (drop : option nat) : world :=
  mkWorld (fun n => if String.eqb n CSV_FILE_TO_PROCESS then Some f else None)
    true drop false None None 0 [] [] false.

(** The same file, on a connected session where [customers] exists and is
    empty. *)
Definition ready_world (f : file) : world :=
  mkWorld (fun n => if String.eqb n CSV_FILE_TO_PROCESS then Some f else None)
    true None true (Some []) (Some []) 0 [] [] false.

(** A new session on the server [w] left, with [customers.csv] now
    holding [f]. *)
Definition reload_world (f : file) (w : world) : world :=
  mkWorld (fun n => if String.eqb n CSV_FILE_TO_PROCESS then Some f else None)
    true None true (w_tbl w) (w_committed w) (w_seq w) [] [] false.

Definition is_commit (o : dbop) : bool :=
  match o with OpCommit => true | _ => false end.

(* ------------------------------------------------------------------ *)
(** ** The monad: inversion lemmas *)

Lemma bind_inl {A B} (m : M A) (k : A -> M B) w b w' :
  bind m k w = (inl b, w') ->
  exists a w1, m w = (inl a, w1) /\ k a w1 = (inl b, w').
Proof.
  unfold bind. destruct (m w) as [[a|e] w1]; intros H; [eauto | discriminate].
Qed.

Lemma bind_inr {A B} (m : M A) (k : A -> M B) w e w' :
  bind m k w = (inr e, w') ->
  m w = (inr e, w') \/ exists a w1, m w = (inl a, w1) /\ k a w1 = (inr e, w').
Proof.
  unfold bind. destruct (m w) as [[a|e'] w1]; intros H; [eauto | ].
  injection H as -> ->. auto.
Qed.

Ltac inv_bind H :=
  let a := fresh "a" in let w1 := fresh "w" in let Hm := fresh "Hm" in
  apply bind_inl in H as (a & w1 & Hm & H).

Lemma print_eq l w : print l w = (inl tt, set_out (w_out w ++ [l]) w).
Proof. reflexivity. Qed.

Lemma log_op_eq o w : log_op o w = (inl tt, set_ops (w_ops w ++ [o]) w).
Proof. reflexivity. Qed.

Lemma name_test_ok f l w k w' :
  name_test f l w = (inl k, w') -> w' = w /\ k = name_ok f l.
Proof.
  unfold name_test, name_ok, py_startswith, bind.
  destruct f as [f|]; [|discriminate]. simpl.
  destruct (String.prefix "A" f); simpl.
  - destruct l as [l|]; [|discriminate]. intros H; injection H as <- <-. auto.
  - intros H; injection H as <- <-. auto.
Qed.

(* ------------------------------------------------------------------ *)
(** ** Which exceptions a computation can raise *)

Definition raises_only (P : exn -> Prop) {A} (m : M A) : Prop :=
  forall w e w', m w = (inr e, w') -> P e.

Section Raises.
Variable P : exn -> Prop.

Lemma ro_ret {A} (a : A) : raises_only P (ret a).
Proof. intros w e w' H. discriminate. Qed.

Lemma ro_raise {A} e : P e -> raises_only P (@raise A e).
Proof. intros He w e' w' H. injection H as <- _. exact He. Qed.

Lemma ro_modify f : raises_only P (modify f).
Proof. intros w e w' H. discriminate. Qed.

Lemma ro_gets {A} (f : world -> A) : raises_only P (gets f).
Proof. intros w e w' H. discriminate. Qed.

Lemma ro_print l : raises_only P (print l).
Proof. apply ro_modify. Qed.

Lemma ro_log_op o : raises_only P (log_op o).
Proof. apply ro_modify. Qed.

Lemma ro_bind {A B} (m : M A) (k : A -> M B) :
  raises_only P m -> (forall a, raises_only P (k a)) -> raises_only P (bind m k).
Proof.
  intros Hm Hk w e w' H. apply bind_inr in H as [H|(a & w1 & _ & H)].
  - exact (Hm _ _ _ H).
  - exact (Hk _ _ _ _ H).
Qed.

Lemma ro_consume : P OperationalError -> P InterfaceError -> raises_only P consume.
Proof.
  intros Ho Hi w e w' H. unfold consume in H.
  destruct (w_closed w); [injection H as <- _; exact Hi|].
  destruct (w_drop w) as [[|k]|]; [injection H as <- _; exact Ho|discriminate..].
Qed.

Lemma ro_cursor_ok : P InterfaceError -> raises_only P cursor_ok.
Proof.
  intros Hi w e w' H. unfold cursor_ok in H.
  destruct (w_closed w); [injection H as <- _; exact Hi|discriminate].
Qed.

Lemma ro_nextval : P DataError -> raises_only P nextval.
Proof.
  intros Hd w e w' H. unfold nextval in H.
  destruct (_ <? _)%N; [discriminate|injection H as <- _; exact Hd].
Qed.

End Raises.

Lemma to_crow_error date_in t e :
  to_crow date_in t = inr e -> e = IntegrityError \/ e = DataError.
Proof.
  unfold to_crow. intros H.
  destruct (convert date_in t) as [[[c|] mk]|];
    [discriminate | injection H as <-; auto | injection H as <-; auto].
Qed.

Definition not_fnf (e : exn) : Prop := e <> FileNotFoundError.

Ltac ro_step :=
  first [ apply ro_bind; [|intros ?]
        | apply ro_ret | apply ro_modify | apply ro_gets | apply ro_print
        | apply ro_log_op | apply ro_consume; discriminate
        | apply ro_cursor_ok; discriminate | apply ro_nextval; discriminate
        | apply ro_raise; discriminate ].

Ltac ro_match :=
  match goal with |- raises_only _ (match ?x with _ => _ end) => destruct x end.

Lemma ro_executemany date_in b : raises_only not_fnf (executemany date_in b).
Proof.
  unfold executemany. ro_step; [ro_step|]. ro_step; [ro_step|].
  induction b as [|t b IH]; simpl.
  - ro_step.
  - ro_step; [|exact IH]. unfold exec_upsert.
    repeat (ro_step || ro_match).
Qed.

Lemma ro_insert_rows date_in n rows st :
  raises_only not_fnf (insert_rows date_in n rows st).
Proof.
  revert st. induction rows as [|row rows IH]; intros st; simpl; [ro_step|].
  ro_step; [|apply IH]. unfold process_row.
  ro_step.
  - unfold name_test, py_startswith. ro_step.
    + destruct (row_get row "First Name" _); repeat ro_step.
    + match goal with |- raises_only _ (if ?b then _ else _) => destruct b end;
        [destruct (row_get row "Last Name" _)|]; repeat ro_step.
  - match goal with |- raises_only _ (if ?b then _ else _) => destruct b end;
      [|ro_step]. ro_step; [apply ro_executemany|]. repeat ro_step.
Qed.

(* ------------------------------------------------------------------ *)
(** ** Invariants of runs *)

Section Preserve.
Context {R : world -> world -> Prop} {HR : WPreorder R}.

Lemma pr_ret {A} (a : A) : preserves R (ret a).
Proof. intros w r w' H. injection H as _ <-. apply wp_refl. Qed.

Lemma pr_raise {A} e : preserves R (@raise A e).
Proof. intros w r w' H. injection H as _ <-. apply wp_refl. Qed.

Lemma pr_gets {A} (f : world -> A) : preserves R (gets f).
Proof. intros w r w' H. injection H as _ <-. apply wp_refl. Qed.

Lemma pr_link_ok :
  (forall w, R w (set_closed true w)) -> preserves R link_ok.
Proof.
  intros Hc w r w' H. unfold link_ok in H.
  destruct (w_closed w); [injection H as _ <-; apply wp_refl|].
  destruct (w_drop w) as [[|k]|]; injection H as _ <-; first [apply wp_refl|apply Hc].
Qed.

Lemma pr_cursor_ok : preserves R cursor_ok.
Proof.
  intros w r w' H. unfold cursor_ok in H.
  destruct (w_closed w); injection H as _ <-; apply wp_refl.
Qed.

Lemma pr_nextval :
  (forall w s, R w (set_db (w_drop w) (w_tbl w) s w)) -> preserves R nextval.
Proof.
  intros Hs w r w' H. unfold nextval in H.
  destruct (_ <? _)%N; injection H as _ <-; first [apply wp_refl|apply Hs].
Qed.

Lemma pr_modify f : (forall w, R w (f w)) -> preserves R (modify f).
Proof. intros Hf w r w' H. injection H as _ <-. apply Hf. Qed.

Lemma pr_consume :
  (forall w d, R w (set_db d (w_tbl w) (w_seq w) w)) ->
  (forall w, R w (set_closed true w)) -> preserves R consume.
Proof.
  intros Hd Hc w r w' H. unfold consume in H.
  destruct (w_closed w); [injection H as _ <-; apply wp_refl|].
  destruct (w_drop w) as [[|k]|]; injection H as _ <-;
    first [apply wp_refl|apply Hd|apply Hc].
Qed.

Lemma pr_bind {A B} (m : M A) (k : A -> M B) :
  preserves R m -> (forall a, preserves R (k a)) -> preserves R (bind m k).
Proof.
  intros Hm Hk w r w' H. unfold bind in H.
  destruct (m w) as [[a|e] w1] eqn:E.
  - exact (wp_trans _ _ _ (Hm _ _ _ E) (Hk _ _ _ _ H)).
  - injection H as _ <-. exact (Hm _ _ _ E).
Qed.

Lemma pr_try_except {A} (m : M A) (h : exn -> M A) :
  preserves R m -> (forall e, preserves R (h e)) -> preserves R (try_except m h).
Proof.
  intros Hm Hh w r w' H. unfold try_except in H.
  destruct (m w) as [[a|e] w1] eqn:E.
  - injection H as _ <-. exact (Hm _ _ _ E).
  - exact (wp_trans _ _ _ (Hm _ _ _ E) (Hh _ _ _ _ H)).
Qed.

Lemma pe_bind {A B} (m : M A) (k : A -> M B) :
  preserves R m -> (forall a, preserves_err R (k a)) -> preserves_err R (bind m k).
Proof.
  intros Hm Hk w e w' H. apply bind_inr in H as [H|(a & w1 & E & H)].
  - exact (Hm _ _ _ H).
  - exact (wp_trans _ _ _ (Hm _ _ _ E) (Hk _ _ _ _ H)).
Qed.

Lemma pe_total {A} (m : M A) :
  (forall w, exists a w', m w = (inl a, w')) -> preserves_err R m.
Proof. intros Hm w e w' H. destruct (Hm w) as (a & w1 & E). congruence. Qed.

End Preserve.

(** The calls logged stay as they were. *)
Definition same_ops (w w' : world) : Prop := w_ops w' = w_ops w.

#[export] Instance same_ops_pre : WPreorder same_ops.
Proof. split; unfold same_ops; [reflexivity|congruence]. Qed.

(* ------------------------------------------------------------------ *)
(** ** The loader loop *)

Section Loader.
Variable date_in : string -> option N.

Lemma exec_upsert_ops t w : w_ops (snd (exec_upsert date_in t w)) = w_ops w.
Proof.
  assert (P : preserves same_ops (exec_upsert date_in t)).
  { unfold exec_upsert.
    repeat first [ apply pr_bind; [|intros ?] | apply pr_gets | apply pr_raise
                 | apply pr_consume; intros; reflexivity
                 | apply pr_nextval; intros; reflexivity
                 | apply pr_modify; intros; reflexivity
                 | match goal with |- preserves _ (match ?x with _ => _ end) =>
                     destruct x end ]. }
  destruct (exec_upsert date_in t w) as [r w'] eqn:E. exact (P _ _ _ E).
Qed.

Lemma exec_each_ops b w : w_ops (snd (exec_each date_in b w)) = w_ops w.
Proof.
  revert w; induction b as [|t b IH]; intros w; [reflexivity|].
  simpl. unfold bind. pose proof (exec_upsert_ops t w) as E.
  destruct (exec_upsert date_in t w) as [[u|e] w1]; simpl in *; [rewrite IH|]; exact E.
Qed.

Lemma executemany_ops b w r w' :
  executemany date_in b w = (r, w') -> w_ops w' = w_ops w ++ [OpExecMany b].
Proof.
  unfold executemany, bind at 1 2. rewrite log_op_eq. unfold cursor_ok. simpl.
  destruct (w_closed w); simpl; intros H; [injection H as _ <-; reflexivity|].
  pose proof (exec_each_ops b (set_ops (w_ops w ++ [OpExecMany b]) w)) as E.
  rewrite H in E. exact E.
Qed.

Lemma print_inv l w a w' : print l w = (inl a, w') -> w' = set_out (w_out w ++ [l]) w.
Proof. rewrite print_eq. congruence. Qed.

Lemma kept_tuples_cons r rows :
  kept_tuples (r :: rows) =
  (if passes r then [build_tuple r (first_name_of r) (last_name_of r)] else [])
  ++ kept_tuples rows.
Proof. unfold kept_tuples. simpl. destruct (passes r); reflexivity. Qed.

Lemma process_row_ok n st row w st' w' :
  process_row date_in n st row w = (inl st', w') ->
  exists calls,
    w_ops w' = w_ops w ++ map OpExecMany calls /\
    concat calls ++ batch st' = batch st ++ kept_tuples [row] /\
    total_processed st' = S (total_processed st) /\
    total_inserted st' = total_inserted st + length (List.filter passes [row]) /\
    ((0 < n)%Z -> (Z.of_nat (length (batch st)) < n)%Z ->
     Forall (fun c => Z.of_nat (length c) = n) calls /\
     (Z.of_nat (length (batch st')) < n)%Z).
Proof.
  unfold process_row. intros H. inv_bind H.
  apply name_test_ok in Hm as [-> ->].
  rewrite kept_tuples_cons. unfold kept_tuples at 1. simpl. unfold passes.
  fold (first_name_of row) (last_name_of row) in *.
  destruct (name_ok _ _) eqn:Hk; simpl in H;
  match type of H with
  | (if ?c then _ else _) _ = _ => destruct c eqn:Hle
  end.
  - inv_bind H. inv_bind H. unfold ret in H. injection H as <- <-.
    apply print_inv in Hm0 as ->. apply executemany_ops in Hm.
    exists [batch st ++ [build_tuple row (first_name_of row) (last_name_of row)]].
    simpl. rewrite Hm. split; [reflexivity|split; [|split; [reflexivity|split]]].
    + rewrite !app_nil_r. reflexivity.
    + lia.
    + intros Hn Hb. apply Z.leb_le in Hle. rewrite length_app in Hle.
      simpl in *. split; [|lia].
      constructor; [rewrite length_app; simpl; lia|constructor].
  - unfold ret in H. injection H as <- <-.
    exists []. simpl. rewrite app_nil_r.
    split; [reflexivity|split; [reflexivity|split; [reflexivity|split]]].
    + lia.
    + intros Hn Hb. apply Z.leb_gt in Hle. split; [constructor | exact Hle].
  - inv_bind H. inv_bind H. unfold ret in H. injection H as <- <-.
    apply print_inv in Hm0 as ->. apply executemany_ops in Hm.
    exists [batch st]. simpl. rewrite Hm.
    split; [reflexivity|split; [|split; [reflexivity|split]]].
    + rewrite !app_nil_r. reflexivity.
    + lia.
    + intros Hn Hb. apply Z.leb_le in Hle. exfalso. lia.
  - unfold ret in H. injection H as <- <-.
    exists []. simpl. rewrite !app_nil_r.
    split; [reflexivity|split; [reflexivity|split; [reflexivity|split]]].
    + lia.
    + intros Hn Hb. split; [constructor | exact Hb].
Qed.

Lemma insert_rows_ok n rows st w st' w' :
  insert_rows date_in n rows st w = (inl st', w') ->
  exists calls,
    w_ops w' = w_ops w ++ map OpExecMany calls /\
    concat calls ++ batch st' = batch st ++ kept_tuples rows /\
    total_processed st' = total_processed st + length rows /\
    total_inserted st' = total_inserted st + length (List.filter passes rows) /\
    ((0 < n)%Z -> (Z.of_nat (length (batch st)) < n)%Z ->
     Forall (fun c => Z.of_nat (length c) = n) calls /\
     (Z.of_nat (length (batch st')) < n)%Z).
Proof.
  revert st w. induction rows as [|row rows IH]; intros st w H.
  - simpl in H. unfold ret in H. injection H as <- <-.
    exists []. simpl. rewrite !app_nil_r. unfold kept_tuples. simpl.
    split; [reflexivity|split; [reflexivity|split; [lia|split; [lia|]]]].
    intros _ Hb. split; [constructor|exact Hb].
  - simpl in H. inv_bind H.
    destruct (process_row_ok _ _ _ _ _ _ Hm)
      as (c1 & Ho1 & Hc1 & Hp1 & Hi1 & Hl1).
    destruct (IH _ _ H) as (c2 & Ho2 & Hc2 & Hp2 & Hi2 & Hl2).
    exists (c1 ++ c2). split; [|split; [|split; [|split]]].
    + rewrite Ho2, Ho1, map_app, app_assoc. reflexivity.
    + rewrite concat_app, <- app_assoc, Hc2, app_assoc, Hc1, <- app_assoc.
      rewrite (kept_tuples_cons row rows). unfold kept_tuples at 1. simpl.
      destruct (passes row); reflexivity.
    + rewrite Hp2, Hp1. simpl. lia.
    + rewrite Hi2, Hi1. simpl. destruct (passes row); simpl; lia.
    + intros Hn Hb. destruct (Hl1 Hn Hb) as [F1 B1].
      destruct (Hl2 Hn B1) as [F2 B2]. split; [apply Forall_app; auto | exact B2].
Qed.

Lemma open_file_some fname f w :
  w_fs w fname = Some f -> open_file fname w = (inl f, w).
Proof. unfold open_file. intros ->. reflexivity. Qed.

(** A run of the loader on a present file that returns normally is a run
    of its [try] block that returns normally. *)
Lemma load_via_body fname n f w w' :
  w_fs w fname = Some f ->
  process_and_insert_csv date_in fname n w = (inl tt, w') ->
  load_body date_in fname n (set_out (w_out w ++ [LStart fname]) w) = (inl tt, w').
Proof.
  intros Hf H. unfold process_and_insert_csv in H. inv_bind H.
  apply print_inv in Hm as ->. unfold try_except in H.
  destruct (load_body date_in fname n _) as [[u|e] w2] eqn:Hb; [exact H|exfalso].
  destruct e; cbv [load_handler] in H;
    try (inv_bind H; unfold raise in H; discriminate H).
  unfold load_body in Hb.
  apply bind_inr in Hb as [Hb|(f' & w3 & Hm & Hb)].
  - unfold open_file in Hb. cbn [w_fs set_out] in Hb. rewrite Hf in Hb. discriminate.
  - match type of Hb with
    | ?m w3 = _ => assert (Hro : raises_only not_fnf m)
    end.
    { repeat (apply ro_insert_rows || apply ro_executemany || ro_step
              || match goal with
                 | |- raises_only _ (if ?b then _ else _) => destruct b
                 | |- raises_only _ (match ?b with _ => _ end) => destruct b
                 end). }
    exact (Hro _ _ _ Hb eq_refl).
Qed.

(** A run of the loader on a present file that returns normally. *)
Lemma load_ok fname n f w w' :
  w_fs w fname = Some f ->
  process_and_insert_csv date_in fname n w = (inl tt, w') ->
  let rows := dict_reader (f_records f) in
  f_read_error f = false /\
  exists calls,
    w_ops w' = w_ops w ++ map OpExecMany calls /\
    concat calls = kept_tuples rows /\
    ((0 < n)%Z ->
     exists full rest, calls = full ++ rest /\
       Forall (fun c => Z.of_nat (length c) = n) full /\
       (rest = [] \/ exists b, rest = [b] /\ 0 < length b /\ (Z.of_nat (length b) < n)%Z)) /\
    exists pre, w_out w' =
      pre ++ [LComplete; LProcessed (length rows);
              LInserted (length (List.filter passes rows))].
Proof.
  intros Hf H rows. apply (load_via_body fname n f w w' Hf) in H.
  set (w1 := set_out _ w) in H.
  assert (Hf1 : w_fs w1 fname = Some f) by exact Hf.
  rename H into Hb. unfold load_body in Hb.
  { inv_bind Hb. rewrite (open_file_some _ _ _ Hf1) in Hm.
    injection Hm as <- <-. inv_bind Hb.
    destruct (insert_rows_ok _ _ _ _ _ _ Hm) as (c1 & Ho1 & Hc1 & Hp1 & Hi1 & Hl1).
    cbn [batch total_processed total_inserted app length Nat.add] in Hc1, Hp1, Hi1, Hl1.
    inv_bind Hb. destruct (f_read_error f) eqn:Hre; [discriminate|].
    unfold ret in Hm0. injection Hm0 as _ <-.
    inv_bind Hb. inv_bind Hb. inv_bind Hb.
    apply print_inv in Hm1 as ->. apply print_inv in Hm2 as ->.
    apply print_inv in Hb as ->. rename a into st.
    split; [reflexivity|].
    destruct (batch st) as [|t b] eqn:Hbt.
    + unfold ret in Hm0. injection Hm0 as _ <-.
      exists c1. split; [cbn [w_ops set_out]; exact Ho1|split; [|split]].
      * rewrite app_nil_r in Hc1. exact Hc1.
      * intros Hn. exists c1, []. rewrite app_nil_r.
        split; [reflexivity|split; [apply (Hl1 Hn); lia|left; reflexivity]].
      * cbn [w_out set_out]. rewrite Hp1, Hi1, <- !app_assoc. eexists. reflexivity.
    + apply bind_inl in Hm0 as (u1 & w5 & Hex & Hm0).
      apply print_inv in Hm0 as ->. apply executemany_ops in Hex.
      exists (c1 ++ [t :: b]). split; [|split; [|split]].
      * cbn [w_ops set_out]. rewrite Hex, Ho1, map_app, app_assoc. reflexivity.
      * rewrite concat_app. cbn [concat]. rewrite app_nil_r. exact Hc1.
      * intros Hn. exists c1, [t :: b]. destruct (Hl1 Hn) as [F B]; [lia|].
        split; [reflexivity|split; [exact F|right]].
        exists (t :: b). split; [reflexivity|split; [cbn [length]; lia|exact B]].
      * cbn [w_out set_out]. rewrite Hp1, Hi1, <- !app_assoc, (app_assoc (w_out w5)).
        eexists. reflexivity. }
Qed.

End Loader.

(* ------------------------------------------------------------------ *)
(** ** The upsert *)

Lemma do_update_same old ex :
  c_customer_id old = c_customer_id ex -> do_update old ex = ex.
Proof. destruct old, ex. simpl. intros ->. reflexivity. Qed.

Lemma same_key_eq r x : same_key r x = String.eqb (key x) (c_customer_id r).
Proof. reflexivity. Qed.

Lemma update_row_key r x : key (update_row r x) = key x.
Proof. unfold update_row. destruct (same_key r x); reflexivity. Qed.

Lemma update_row_id r x : s_id (update_row r x) = s_id x.
Proof. unfold update_row. destruct (same_key r x); reflexivity. Qed.

Lemma update_row_hit r x :
  key x = c_customer_id r -> update_row r x = mkSrow (s_id x) r.
Proof.
  intros Hk. unfold update_row. rewrite same_key_eq, Hk, String.eqb_refl.
  rewrite do_update_same by exact Hk. reflexivity.
Qed.

Lemma update_row_miss r x :
  key x <> c_customer_id r -> update_row r x = x.
Proof.
  intros Hk. unfold update_row. rewrite same_key_eq.
  apply String.eqb_neq in Hk. rewrite Hk. reflexivity.
Qed.

Lemma existsb_key_map r' r t :
  existsb (same_key r') (map (update_row r) t) = existsb (same_key r') t.
Proof.
  induction t as [|x t IH]; [reflexivity|]. simpl.
  rewrite IH, !same_key_eq, update_row_key. reflexivity.
Qed.

Lemma upsert_cases t nid r t' :
  upsert t nid r = Some t' ->
  (existsb (same_key r) t = true /\ t' = map (update_row r) t) \/
  (existsb (same_key r) t = false /\
   existsb (fun x => Nat.eqb (s_id x) nid) t = false /\ t' = t ++ [mkSrow nid r]).
Proof.
  unfold upsert. destruct (existsb (same_key r) t); intros H.
  - injection H as <-. left. auto.
  - destruct (existsb _ t); [discriminate|]. injection H as <-. right. auto.
Qed.

Lemma existsb_upsert_self t nid r t' :
  upsert t nid r = Some t' -> existsb (same_key r) t' = true.
Proof.
  intros U. destruct (upsert_cases _ _ _ _ U) as [(E & ->)|(_ & _ & ->)].
  - rewrite existsb_key_map. exact E.
  - rewrite existsb_app. simpl. rewrite same_key_eq. simpl.
    rewrite String.eqb_refl, orb_true_r. reflexivity.
Qed.

Lemma existsb_upsert_keep t nid r r' t' :
  existsb (same_key r') t = true -> upsert t nid r = Some t' ->
  existsb (same_key r') t' = true.
Proof.
  intros H U. destruct (upsert_cases _ _ _ _ U) as [(_ & ->)|(_ & _ & ->)].
  - rewrite existsb_key_map. exact H.
  - rewrite existsb_app, H. reflexivity.
Qed.

Lemma upsert_all_cons t s r cs t' :
  upsert_all t s (r :: cs) = Some t' ->
  exists t1, upsert t (S s) r = Some t1 /\ upsert_all t1 (S s) cs = Some t'.
Proof. simpl. destruct (upsert t (S s) r); [eauto|discriminate]. Qed.

Lemma existsb_upsert_all t s cs r' t' :
  existsb (same_key r') t = true -> upsert_all t s cs = Some t' ->
  existsb (same_key r') t' = true.
Proof.
  revert t s. induction cs as [|r cs IH]; intros t s H U.
  - injection U as <-. exact H.
  - apply upsert_all_cons in U as (t1 & U1 & U).
    exact (IH _ _ (existsb_upsert_keep _ _ _ _ _ H U1) U).
Qed.

Lemma upsert_all_covers t s cs r t' :
  In r cs -> upsert_all t s cs = Some t' -> existsb (same_key r) t' = true.
Proof.
  revert t s. induction cs as [|r0 cs IH]; intros t s Hin U; [destruct Hin|].
  apply upsert_all_cons in U as (t1 & U1 & U). destruct Hin as [->|Hin].
  - exact (existsb_upsert_all _ _ _ _ _ (existsb_upsert_self _ _ _ _ U1) U).
  - exact (IH _ _ Hin U).
Qed.

(** Upserting rows whose keys are all present only updates in place. *)
Lemma upsert_all_present t s cs :
  (forall r, In r cs -> existsb (same_key r) t = true) ->
  upsert_all t s cs = Some (map (fold_updates cs) t).
Proof.
  revert t s. induction cs as [|r cs IH]; intros t s H.
  - simpl. unfold fold_updates. simpl. rewrite map_id. reflexivity.
  - simpl. unfold upsert. rewrite (H r (or_introl eq_refl)).
    rewrite IH.
    + rewrite map_map. reflexivity.
    + intros r' Hin. rewrite existsb_key_map. apply H. right. exact Hin.
Qed.

Lemma fold_updates_lastk cs x :
  fold_updates cs x =
  match lastk cs (key x) with Some r => mkSrow (s_id x) r | None => x end.
Proof.
  unfold fold_updates. revert x. induction cs as [|r cs IH]; intros x; [reflexivity|].
  simpl. rewrite IH, update_row_key, update_row_id.
  destruct (lastk cs (key x)); [reflexivity|].
  destruct (String.eqb (c_customer_id r) (key x)) eqn:E.
  - apply String.eqb_eq in E. apply update_row_hit. congruence.
  - apply String.eqb_neq in E. apply update_row_miss. congruence.
Qed.

(** A row of the table after [upsert t nid r] with the key of [r] carries
    exactly [r]. *)
Lemma upsert_hit_row t nid r t' x :
  upsert t nid r = Some t' -> In x t' -> key x = c_customer_id r -> s_row x = r.
Proof.
  intros U. destruct (upsert_cases _ _ _ _ U) as [(_ & ->)|(E0 & _ & ->)].
  - intros Hin Hk. apply in_map_iff in Hin as (y & <- & _).
    rewrite update_row_key in Hk. rewrite update_row_hit by exact Hk. reflexivity.
  - intros Hin Hk. apply in_app_or in Hin as [Hin|[<-|[]]]; [|reflexivity].
    exfalso. assert (E : existsb (same_key r) t = true).
    { apply existsb_exists. exists x. split; [exact Hin|].
      rewrite same_key_eq, Hk. apply String.eqb_refl. }
    congruence.
Qed.

(** A row of the table after [upsert t nid r] with another key was already
    in [t]. *)
Lemma upsert_miss_row t nid r t' x :
  upsert t nid r = Some t' -> In x t' -> key x <> c_customer_id r -> In x t.
Proof.
  intros U. destruct (upsert_cases _ _ _ _ U) as [(_ & ->)|(_ & _ & ->)].
  - intros Hin Hk. apply in_map_iff in Hin as (y & <- & Hy).
    rewrite update_row_key in Hk. rewrite update_row_miss by exact Hk. exact Hy.
  - intros Hin Hk. apply in_app_or in Hin as [Hin|[<-|[]]]; [exact Hin|].
    simpl in Hk. contradiction.
Qed.

Lemma upsert_all_untouched t s cs t' x :
  upsert_all t s cs = Some t' -> In x t' -> lastk cs (key x) = None -> In x t.
Proof.
  revert t s. induction cs as [|r cs IH]; intros t s U Hin Hl.
  - injection U as <-. exact Hin.
  - apply upsert_all_cons in U as (t1 & U1 & U).
    simpl in Hl. destruct (lastk cs (key x)); [discriminate|].
    apply (IH _ _ U) in Hin; [|reflexivity].
    destruct (String.eqb (c_customer_id r) (key x)) eqn:E; [discriminate|].
    apply String.eqb_neq in E. eapply upsert_miss_row; [exact U1|exact Hin|congruence].
Qed.

Lemma upsert_all_rows t s cs t' x r :
  upsert_all t s cs = Some t' -> In x t' -> lastk cs (key x) = Some r -> s_row x = r.
Proof.
  revert t s. induction cs as [|r0 cs IH]; intros t s U Hin Hl; [discriminate|].
  apply upsert_all_cons in U as (t1 & U1 & U).
  simpl in Hl. destruct (lastk cs (key x)) eqn:El.
  - injection Hl as <-. exact (IH _ _ U Hin eq_refl).
  - destruct (String.eqb (c_customer_id r0) (key x)) eqn:E; [|discriminate].
    injection Hl as <-. apply String.eqb_eq in E.
    apply (upsert_all_untouched _ _ _ _ _ U Hin) in El.
    eapply upsert_hit_row; [exact U1|exact El|congruence].
Qed.

(** Replaying the same rows leaves the table as it is, whatever the
    sequence: every key is stored, so every row takes the update path. *)
Lemma upsert_all_idempotent t s s' cs t1 :
  upsert_all t s cs = Some t1 -> upsert_all t1 s' cs = Some t1.
Proof.
  intros U.
  rewrite upsert_all_present by (intros r Hin; exact (upsert_all_covers _ _ _ _ _ Hin U)).
  f_equal. transitivity (map id t1); [|apply map_id]. apply map_ext_in. intros x Hin.
  rewrite fold_updates_lastk. destruct (lastk cs (key x)) as [r|] eqn:E; [|reflexivity].
  rewrite <- (upsert_all_rows _ _ _ _ _ _ U Hin E). destruct x; reflexivity.
Qed.

(* ------------------------------------------------------------------ *)
(** ** Successful loads on a link that does not drop *)

Lemma map_inj_eq {A B} (f : A -> B) :
  (forall x y, f x = f y -> x = y) ->
  forall l1 l2, map f l1 = map f l2 -> l1 = l2.
Proof.
  intros Hf l1. induction l1 as [|x l1 IH]; intros [|y l2] H; try discriminate.
  - reflexivity.
  - injection H as Hxy Hl. f_equal; [apply Hf, Hxy|apply IH, Hl].
Qed.

Lemma ops_calls_eq pre c1 c2 :
  pre ++ map OpExecMany c1 = pre ++ map OpExecMany c2 -> c1 = c2.
Proof. intros H. apply app_inv_head in H. apply map_inj_eq in H; [exact H|congruence]. Qed.

Lemma ops_nil pre c : pre = pre ++ map OpExecMany c -> c = [].
Proof.
  intros H. apply (ops_calls_eq pre). rewrite <- H. cbn [map]. symmetry. apply app_nil_r.
Qed.

Lemma name_test_at f l w k w' :
  name_test f l w = (inl k, w') -> forall v, name_test f l v = (inl k, v).
Proof.
  unfold name_test, py_startswith, bind, ret, raise.
  destruct f as [f|]; [|discriminate]. cbn [py_str_or_empty].
  destruct (String.prefix "A" f); [destruct l|]; intros H; try discriminate;
    injection H as <- _; reflexivity.
Qed.

Section Replay.
Variable date_in : string -> option N.

Lemma apply_tuples_app st a b :
  apply_tuples date_in st (a ++ b) =
  match apply_tuples date_in st a with
  | Some st' => apply_tuples date_in st' b
  | None => None
  end.
Proof.
  revert st. induction a as [|t a IH]; intros [[tb|] s]; try reflexivity.
  simpl. destruct (to_crow date_in t) as [r|e]; [|reflexivity].
  destruct (N.of_nat s <? SEQ_MAX)%N; [|reflexivity].
  destruct (upsert tb (S s) r); [apply IH|reflexivity].
Qed.

Lemma tr_ret {A} (a : A) : tracks date_in (ret a).
Proof.
  intros w a' w' Hd H. injection H as _ <-.
  split; [exact Hd|split; [reflexivity|split; [reflexivity|]]].
  exists []. cbn [map concat]. rewrite app_nil_r. split; reflexivity.
Qed.

Lemma tr_raise {A} e : tracks date_in (@raise A e).
Proof. intros w a w' Hd H. discriminate. Qed.

Lemma tr_print l : tracks date_in (print l).
Proof.
  intros w a w' Hd H. apply print_inv in H as ->.
  split; [exact Hd|split; [reflexivity|split; [reflexivity|]]].
  exists []. cbn [w_ops w_tbl w_seq set_out map concat]. rewrite app_nil_r. split; reflexivity.
Qed.

Lemma tr_bind {A B} (m : M A) (k : A -> M B) :
  tracks date_in m -> (forall a, tracks date_in (k a)) -> tracks date_in (bind m k).
Proof.
  intros Hm Hk w b w' Hd H. inv_bind H.
  destruct (Hm _ _ _ Hd Hm0) as (Hd1 & Hf1 & Hc1 & c1 & Ho1 & Ha1).
  destruct (Hk _ _ _ _ Hd1 H) as (Hd2 & Hf2 & Hc2 & c2 & Ho2 & Ha2).
  split; [exact Hd2|split; [congruence|split; [congruence|]]].
  exists (c1 ++ c2). rewrite Ho2, Ho1, map_app, app_assoc. split; [reflexivity|].
  rewrite concat_app, apply_tuples_app, Ha1. exact Ha2.
Qed.

Lemma exec_upsert_nodrop t w u w' :
  w_drop w = None -> exec_upsert date_in t w = (inl u, w') ->
  apply_tuples date_in (w_tbl w, w_seq w) [t] = Some (w_tbl w', w_seq w') /\
  w_drop w' = None /\ w_fs w' = w_fs w /\ w_ops w' = w_ops w /\
  w_closed w' = w_closed w.
Proof.
  intros Hd H. unfold exec_upsert, bind, consume, gets, modify, raise, nextval in H.
  destruct (w_closed w) eqn:Hc; [discriminate|]. rewrite Hd in H.
  cbn -[convert upsert] in H. cbn [apply_tuples fst snd]. unfold to_crow.
  destruct (w_tbl w) as [tb|]; [|cbn in H; discriminate H].
  destruct (convert date_in t) as [[[c|] mk]|]; cbn -[upsert] in H; [| |discriminate H];
    destruct (N.of_nat (w_seq w) <? SEQ_MAX)%N; cbn -[upsert] in H; try discriminate H.
  destruct (upsert tb (S (w_seq w)) (mk c)) as [tb'|]; [|cbn in H; discriminate H].
  injection H as _ <-. cbn. rewrite Hd, Hc. auto.
Qed.

Lemma exec_upsert_complete t w st' :
  w_drop w = None -> w_closed w = false ->
  apply_tuples date_in (w_tbl w, w_seq w) [t] = Some st' ->
  exists w', exec_upsert date_in t w = (inl tt, w') /\
    w_drop w' = None /\ w_closed w' = false /\ w_fs w' = w_fs w /\
    w_ops w' = w_ops w /\ (w_tbl w', w_seq w') = st'.
Proof.
  intros Hd Hc Ha. unfold exec_upsert, bind, consume, gets, modify, raise, nextval.
  rewrite Hc, Hd. cbn [apply_tuples fst snd] in Ha. unfold to_crow in Ha.
  destruct (w_tbl w) as [tb|]; [|discriminate].
  destruct (convert date_in t) as [[[c|] mk]|]; [|discriminate..].
  destruct (N.of_nat (w_seq w) <? SEQ_MAX)%N; [|discriminate].
  destruct (upsert tb (S (w_seq w)) (mk c)) as [tb'|] eqn:U; [|discriminate].
  injection Ha as <-. eexists. split; [reflexivity|]. cbn.
  rewrite Hd, Hc. auto.
Qed.

Lemma exec_each_nodrop b w u w' :
  w_drop w = None -> exec_each date_in b w = (inl u, w') ->
  apply_tuples date_in (w_tbl w, w_seq w) b = Some (w_tbl w', w_seq w') /\
  w_drop w' = None /\ w_fs w' = w_fs w /\ w_ops w' = w_ops w /\
  w_closed w' = w_closed w.
Proof.
  revert w. induction b as [|t b IH]; intros w Hd H.
  - injection H as _ <-. auto.
  - simpl in H. inv_bind H.
    destruct (exec_upsert_nodrop _ _ _ _ Hd Hm) as (A1 & D1 & F1 & O1 & C1).
    destruct (IH _ D1 H) as (A2 & D2 & F2 & O2 & C2).
    split; [|split; [exact D2|split; [congruence|split; congruence]]].
    change (t :: b) with ([t] ++ b). rewrite apply_tuples_app, A1. exact A2.
Qed.

Lemma exec_each_complete b w st' :
  w_drop w = None -> w_closed w = false ->
  apply_tuples date_in (w_tbl w, w_seq w) b = Some st' ->
  exists w', exec_each date_in b w = (inl tt, w') /\
    w_drop w' = None /\ w_closed w' = false /\ w_fs w' = w_fs w /\
    w_ops w' = w_ops w /\ (w_tbl w', w_seq w') = st'.
Proof.
  revert w. induction b as [|t b IH]; intros w Hd Hc Ha.
  - injection Ha as <-. exists w. repeat split; assumption.
  - change (t :: b) with ([t] ++ b) in Ha. rewrite apply_tuples_app in Ha.
    destruct (apply_tuples date_in (w_tbl w, w_seq w) [t]) as [st1|] eqn:A1;
      [|discriminate].
    destruct (exec_upsert_complete _ _ _ Hd Hc A1) as (w1 & E1 & D1 & C1 & F1 & O1 & S1).
    rewrite <- S1 in Ha.
    destruct (IH _ D1 C1 Ha) as (w2 & E2 & D2 & C2 & F2 & O2 & S2).
    exists w2. simpl. unfold bind. rewrite E1.
    split; [exact E2|split; [exact D2|split; [exact C2|split; [congruence|split; [congruence|exact S2]]]]].
Qed.

Lemma tr_executemany b : tracks date_in (executemany date_in b).
Proof.
  intros w u w' Hd H. unfold executemany in H. inv_bind H.
  rewrite log_op_eq in Hm. injection Hm as _ <-. inv_bind H.
  unfold cursor_ok in Hm. destruct (w_closed _) eqn:Hc in Hm; [discriminate|].
  injection Hm as _ <-.
  apply exec_each_nodrop in H as (A & D & F & O & C); [|exact Hd].
  split; [exact D|split; [exact F|split; [exact C|]]]. exists [b].
  rewrite O. cbn [concat map w_ops set_ops]. rewrite app_nil_r. split; [reflexivity|exact A].
Qed.

Lemma tr_name_test f l : tracks date_in (name_test f l).
Proof.
  intros w k w' Hd H. apply name_test_ok in H as [-> _].
  split; [exact Hd|split; [reflexivity|split; [reflexivity|]]].
  exists []. cbn [map concat]. rewrite app_nil_r. split; reflexivity.
Qed.

Lemma tr_open_file fname : tracks date_in (open_file fname).
Proof.
  intros w f w' Hd H. unfold open_file in H. destruct (w_fs w fname); [|discriminate].
  injection H as _ <-. split; [exact Hd|split; [reflexivity|split; [reflexivity|]]].
  exists []. cbn [map concat]. rewrite app_nil_r. split; reflexivity.
Qed.

Ltac tr_step :=
  first [ apply tr_executemany | apply tr_name_test
        | apply tr_bind; [|intros ?]
        | apply tr_ret | apply tr_raise | apply tr_print | apply tr_open_file
        | match goal with
          | |- tracks _ (if ?b then _ else _) => destruct b
          | |- tracks _ (match ?b with _ => _ end) => destruct b
          end ].

Lemma tr_process_row n st row : tracks date_in (process_row date_in n st row).
Proof. unfold process_row. cbv zeta. repeat tr_step. Qed.

Lemma tr_insert_rows n rows st : tracks date_in (insert_rows date_in n rows st).
Proof.
  revert st. induction rows as [|row rows IH]; intros st; simpl; [apply tr_ret|].
  apply tr_bind; [apply tr_process_row|intros ?; apply IH].
Qed.

Lemma tr_load_body fname n : tracks date_in (load_body date_in fname n).
Proof. unfold load_body. repeat (apply tr_insert_rows || tr_step). Qed.

(** The loader, run on a present file without a drop of the link. *)
Lemma load_tracks fname n f w w' :
  w_drop w = None -> w_fs w fname = Some f ->
  process_and_insert_csv date_in fname n w = (inl tt, w') ->
  w_drop w' = None /\ w_fs w' = w_fs w /\ w_closed w' = w_closed w /\
  exists calls, w_ops w' = w_ops w ++ map OpExecMany calls /\
    apply_tuples date_in (w_tbl w, w_seq w) (concat calls) = Some (w_tbl w', w_seq w').
Proof.
  intros Hd Hf H. apply (load_via_body date_in fname n f w w' Hf) in H.
  exact (tr_load_body fname n (set_out (w_out w ++ [LStart fname]) w) _ _ Hd H).
Qed.

(** Replaying runs from another world with the same files, on an open
    connection. *)

Ltac rp_fin :=
  repeat match goal with |- _ /\ _ => refine (conj _ _) end;
  try assumption; try reflexivity.

Lemma rp_ret {A} (a : A) : replay date_in (ret a).
Proof.
  intros w a' w' calls v st' _ H Ho Dv Cv Fv Ha. injection H as <- <-.
  apply ops_nil in Ho as ->. injection Ha as <-.
  exists v. cbn [map]. rewrite app_nil_r. rp_fin.
Qed.

Lemma rp_raise {A} e : replay date_in (@raise A e).
Proof. intros w a w' calls v st' _ H. discriminate. Qed.

Lemma rp_print l : replay date_in (print l).
Proof.
  intros w a w' calls v st' _ H Ho Dv Cv Fv Ha. apply print_inv in H as ->.
  apply ops_nil in Ho as ->. injection Ha as <-. destruct a.
  exists (set_out (w_out v ++ [l]) v). cbn [map]. rewrite app_nil_r.
  rp_fin.
Qed.

Lemma rp_open_file fname : replay date_in (open_file fname).
Proof.
  intros w f w' calls v st' _ H Ho Dv Cv Fv Ha. unfold open_file in H.
  destruct (w_fs w fname) eqn:E; [|discriminate]. injection H as <- <-.
  apply ops_nil in Ho as ->. injection Ha as <-.
  exists v. unfold open_file. rewrite Fv, E. cbn [map]. rewrite app_nil_r. rp_fin.
Qed.

Lemma rp_name_test f l : replay date_in (name_test f l).
Proof.
  intros w k w' calls v st' _ H Ho Dv Cv Fv Ha.
  pose proof (name_test_at _ _ _ _ _ H v) as Ev.
  apply name_test_ok in H as [-> _].
  apply ops_nil in Ho as ->. injection Ha as <-.
  exists v. cbn [map]. rewrite app_nil_r. rp_fin.
Qed.

Lemma rp_executemany b : replay date_in (executemany date_in b).
Proof.
  intros w u w' calls v st' _ H Ho Dv Cv Fv Ha. destruct u.
  apply executemany_ops in H. rewrite H in Ho.
  change [OpExecMany b] with (map OpExecMany [b]) in Ho.
  apply ops_calls_eq in Ho as <-. cbn [concat] in Ha. rewrite app_nil_r in Ha.
  destruct (exec_each_complete b (set_ops (w_ops v ++ [OpExecMany b]) v) st' Dv Cv Ha)
    as (v' & E & D & C & F & O & S).
  exists v'. split.
  - unfold executemany, bind, cursor_ok. rewrite log_op_eq. cbn [w_closed set_ops].
    rewrite Cv. exact E.
  - split; [exact D|split; [exact C|split; [exact F|split; [exact O|exact S]]]].
Qed.

Lemma rp_bind {A B} (m : M A) (k : A -> M B) :
  tracks date_in m -> (forall a, tracks date_in (k a)) ->
  replay date_in m -> (forall a, replay date_in (k a)) -> replay date_in (bind m k).
Proof.
  intros Tm Tk Rm Rk w b w' calls v st' Hd H Ho Dv Cv Fv Ha. inv_bind H.
  destruct (Tm _ _ _ Hd Hm) as (D1 & F1 & _ & c1 & O1 & _).
  destruct (Tk _ _ _ _ D1 H) as (_ & _ & _ & c2 & O2 & _).
  rewrite O2, O1, <- app_assoc, <- map_app in Ho. apply ops_calls_eq in Ho. subst calls.
  rewrite concat_app, apply_tuples_app in Ha.
  destruct (apply_tuples date_in (w_tbl v, w_seq v) (concat c1)) as [st1|] eqn:A1;
    [|discriminate].
  destruct (Rm _ _ _ _ _ _ Hd Hm O1 Dv Cv Fv A1) as (v1 & E1 & D1' & C1' & F1' & O1' & S1).
  rewrite <- S1 in Ha.
  destruct (Rk _ _ _ _ _ _ _ D1 H O2 D1' C1' (eq_trans F1' (eq_trans Fv (eq_sym F1))) Ha)
    as (v2 & E2 & D2 & C2 & F2 & O2' & S2).
  exists v2. unfold bind. rewrite E1. split; [exact E2|].
  split; [exact D2|split; [exact C2|split; [congruence|split; [|exact S2]]]].
  rewrite O2', O1', map_app, app_assoc. reflexivity.
Qed.

Ltac rp_tr := repeat (apply tr_insert_rows || apply tr_process_row || tr_step).

Ltac rp_step :=
  first [ apply rp_executemany | apply rp_name_test
        | apply rp_bind; [rp_tr|intros ?; rp_tr| |intros ?]
        | apply rp_ret | apply rp_raise | apply rp_print | apply rp_open_file
        | match goal with
          | |- replay _ (if ?b then _ else _) => destruct b
          | |- replay _ (match ?b with _ => _ end) => destruct b
          end ].

Lemma rp_insert_rows n rows st : replay date_in (insert_rows date_in n rows st).
Proof.
  revert st. induction rows as [|row rows IH]; intros st; simpl; [apply rp_ret|].
  apply rp_bind; [apply tr_process_row|intros ?; apply tr_insert_rows| |intros ?; apply IH].
  unfold process_row. cbv zeta. repeat rp_step.
Qed.

Lemma rp_load_body fname n : replay date_in (load_body date_in fname n).
Proof. unfold load_body. repeat (apply rp_insert_rows || rp_step). Qed.

(** A load that returned normally on a link that does not drop, run again
    from a world with the same files, on an open connection whose table
    takes the same statements: it returns normally again, and leaves the
    table and sequence those statements leave. *)
Lemma load_replay fname n f w w' calls v st' :
  w_drop w = None -> w_fs w fname = Some f ->
  process_and_insert_csv date_in fname n w = (inl tt, w') ->
  w_ops w' = w_ops w ++ map OpExecMany calls ->
  w_drop v = None -> w_closed v = false -> w_fs v = w_fs w ->
  apply_tuples date_in (w_tbl v, w_seq v) (concat calls) = Some st' ->
  exists v', process_and_insert_csv date_in fname n v = (inl tt, v') /\
             (w_tbl v', w_seq v') = st'.
Proof.
  intros Hd Hf H Ho Dv Cv Fv Ha.
  apply (load_via_body date_in fname n f w w' Hf) in H.
  destruct (rp_load_body fname n (set_out (w_out w ++ [LStart fname]) w) _ _ _
              (set_out (w_out v ++ [LStart fname]) v) _
              Hd H Ho Dv Cv Fv Ha) as (v' & E & _ & _ & _ & _ & S).
  exists v'. split; [|exact S].
  change (process_and_insert_csv date_in fname n v) with
    (try_except (load_body date_in fname n) (load_handler fname)
       (set_out (w_out v ++ [LStart fname]) v)).
  unfold try_except. rewrite E. reflexivity.
Qed.

End Replay.

(* ------------------------------------------------------------------ *)
(** ** Replaying a load *)

Lemma apply_tuples_some date_in tb s ts st' :
  apply_tuples date_in (Some tb, s) ts = Some st' ->
  exists cs tb', map (to_crow date_in) ts = map inl cs /\
    upsert_all tb s cs = Some tb' /\ st' = (Some tb', s + length ts).
Proof.
  revert tb s. induction ts as [|t ts IH]; intros tb s H.
  - injection H as <-. exists [], tb. rewrite Nat.add_0_r. auto.
  - simpl in H. destruct (to_crow date_in t) as [r|e] eqn:Hc; [|discriminate].
    destruct (N.of_nat s <? SEQ_MAX)%N; [|discriminate].
    destruct (upsert tb (S s) r) as [t1|] eqn:U; [|discriminate].
    destruct (IH _ _ H) as (cs & tb' & Hm & U' & ->). exists (r :: cs), tb'. simpl.
    rewrite Hc, Hm, U. split; [reflexivity|split; [exact U'|]]. f_equal. f_equal. lia.
Qed.

Lemma apply_tuples_complete date_in tb s ts cs tb' :
  map (to_crow date_in) ts = map inl cs -> upsert_all tb s cs = Some tb' ->
  (N.of_nat s + N.of_nat (length ts) <= SEQ_MAX)%N ->
  apply_tuples date_in (Some tb, s) ts = Some (Some tb', s + length ts).
Proof.
  revert tb s cs. induction ts as [|t ts IH]; intros tb s [|r cs] Hm U Hr; try discriminate.
  - injection U as <-. rewrite Nat.add_0_r. reflexivity.
  - injection Hm as Ht Hm. apply upsert_all_cons in U as (t1 & U1 & U).
    cbn [length] in Hr. cbn [apply_tuples fst snd]. rewrite Ht.
    assert (Hlt : (N.of_nat s <? SEQ_MAX)%N = true) by (apply N.ltb_lt; lia).
    rewrite Hlt, U1. rewrite (IH _ _ _ Hm U); [cbn [length]; f_equal; f_equal; lia|lia].
Qed.

Lemma apply_tuples_none_iff date_in st ts st' :
  apply_tuples date_in st ts = Some st' -> (st.1 = None <-> st'.1 = None).
Proof.
  destruct st as [[tb|] s]; intros H.
  - apply apply_tuples_some in H as (cs & tb' & _ & _ & ->). simpl. split; discriminate.
  - destruct ts; [injection H as <-; reflexivity|discriminate].
Qed.

(** The statements of a successful run, applied once more to the table they
    left, leave it as it is, given room in the sequence. *)
Lemma apply_tuples_again date_in st ts st1 :
  apply_tuples date_in st ts = Some st1 ->
  (N.of_nat st1.2 + N.of_nat (length ts) <= SEQ_MAX)%N ->
  apply_tuples date_in st1 ts = Some (st1.1, st1.2 + length ts).
Proof.
  destruct st as [[tb|] s]; intros H Hr.
  - apply apply_tuples_some in H as (cs & tb1 & Hm & U & ->). cbn [fst snd] in *.
    exact (apply_tuples_complete _ _ _ _ _ _ Hm (upsert_all_idempotent _ _ _ _ _ U) Hr).
  - destruct ts; [|discriminate]. injection H as <-. cbn. rewrite Nat.add_0_r. reflexivity.
Qed.

Lemma apply_tuples_twice date_in st ts st1 st2 :
  apply_tuples date_in st ts = Some st1 ->
  apply_tuples date_in st1 ts = Some st2 -> st2.1 = st1.1.
Proof.
  destruct st as [[tb|] s]; intros H H2.
  - apply apply_tuples_some in H as (cs & tb1 & Hm & U & ->). cbn [fst snd] in *.
    apply apply_tuples_some in H2 as (cs' & tb2 & Hm' & U' & ->). cbn [fst].
    rewrite Hm in Hm'. apply map_inj_eq in Hm' as <-; [|congruence].
    rewrite (upsert_all_idempotent _ _ (s + length ts) _ _ U) in U'.
    injection U' as ->. reflexivity.
  - destruct ts; [|discriminate]. injection H as <-. injection H2 as <-. reflexivity.
Qed.

Lemma filter_none {A} (f : A -> bool) l :
  (forall z, In z l -> f z = false) -> List.filter f l = [].
Proof.
  induction l as [|y l IH]; intros H; [reflexivity|]. simpl.
  rewrite (H y (or_introl eq_refl)). apply IH. intros z Hz. apply H. right. exact Hz.
Qed.

Lemma same_key_update r r' y : same_key r (update_row r' y) = same_key r y.
Proof. rewrite !same_key_eq, update_row_key. reflexivity. Qed.

Lemma filter_key_unique t r x :
  List.NoDup (map key t) -> In x t -> key x = c_customer_id r ->
  List.filter (same_key r) t = [x].
Proof.
  induction t as [|y t IH]; intros Hnd Hin Hk; [destruct Hin|].
  simpl in Hnd. apply NoDup_cons_iff in Hnd as [Hy Hnd]. simpl.
  destruct (same_key r y) eqn:Es.
  - rewrite same_key_eq in Es. apply String.eqb_eq in Es.
    destruct Hin as [<-|Hin].
    + rewrite filter_none; [reflexivity|]. intros z Hz.
      rewrite same_key_eq. apply String.eqb_neq. intros Ez. apply Hy.
      rewrite Es, <- Ez. apply in_map, Hz.
    + exfalso. apply Hy. rewrite Es, <- Hk. apply in_map, Hin.
  - destruct Hin as [<-|Hin].
    + rewrite same_key_eq, Hk, String.eqb_refl in Es. discriminate.
    + apply IH; assumption.
Qed.

(** The upsert of a row whose key is already stored, on a table with unique
    keys: it takes the update path, whatever [nid]. *)
Lemma upsert_existing t nid r x :
  List.NoDup (map key t) -> In x t -> key x = c_customer_id r ->
  exists t', upsert t nid r = Some t' /\
  List.NoDup (map key t') /\
  List.filter (same_key r) t' = [mkSrow (s_id x) r] /\
  List.filter (fun y => negb (same_key r y)) t' =
  List.filter (fun y => negb (same_key r y)) t.
Proof.
  intros Hnd Hin Hk.
  assert (E : existsb (same_key r) t = true).
  { apply existsb_exists. exists x. split; [exact Hin|].
    rewrite same_key_eq, Hk. apply String.eqb_refl. }
  unfold upsert. rewrite E. eexists. split; [reflexivity|]. split; [|split].
  - rewrite map_map. erewrite map_ext; [exact Hnd|]. apply update_row_key.
  - rewrite <- (update_row_hit r x Hk).
    change [update_row r x] with (map (update_row r) [x]).
    rewrite <- (filter_key_unique t r x Hnd Hin Hk).
    clear. induction t as [|y t IH]; [reflexivity|]. cbn [map List.filter].
    rewrite same_key_update. destruct (same_key r y); rewrite IH; reflexivity.
  - clear. induction t as [|y t IH]; [reflexivity|]. cbn [map List.filter].
    rewrite same_key_update. destruct (same_key r y) eqn:Es; cbn [negb]; [exact IH|].
    unfold update_row at 1. rewrite Es, IH. reflexivity.
Qed.

(* ------------------------------------------------------------------ *)
(** ** Rows of [csv.DictReader] *)

Lemma fold_insert_notin (kvs : list (string * pyval)) (m : gmap string pyval) k :
  k ∉ map fst kvs ->
  fold_left (fun m kv => <[kv.1 := kv.2]> m) kvs m !! k = m !! k.
Proof.
  revert m. induction kvs as [|[k' v] kvs IH]; intros m Hk; [reflexivity|].
  simpl in *. rewrite IH by (intros H; apply Hk; right; exact H).
  apply lookup_insert_ne. intros ->. apply Hk. left.
Qed.

Lemma combine_fst_in (hdr : list string) (vs : list pyval) k :
  In k (map fst (combine hdr vs)) -> In k hdr.
Proof.
  revert vs. induction hdr as [|h hdr IH]; intros [|v vs]; simpl; try tauto.
  intros [->|H]; [left; reflexivity|right; exact (IH _ H)].
Qed.

Lemma dict_row_notin hdr cells k :
  ~ In k hdr -> dict_row hdr cells !! k = None.
Proof.
  intros Hk. unfold dict_row, dict_of. rewrite fold_insert_notin; [reflexivity|].
  rewrite list_elem_of_In, map_app, in_app_iff, map_map. simpl.
  intros [H|H].
  - exact (Hk (combine_fst_in _ _ _ H)).
  - rewrite map_id in H. apply Hk. rewrite <- (take_drop (length cells) hdr).
    apply in_or_app. right. exact H.
Qed.

Lemma concat_length_uniform (calls : list (list tuple)) k :
  Forall (fun c => length c = k) calls -> length (concat calls) = k * length calls.
Proof.
  induction 1 as [|c calls Hc _ IH]; simpl; [lia|].
  rewrite length_app, Hc, IH. lia.
Qed.

Lemma nth_app_l_in (calls full rest : list (list tuple)) i k :
  calls = full ++ rest -> i < length full ->
  Forall (fun c => length c = k) full -> length (nth i calls []) = k.
Proof.
  intros -> Hi HF. rewrite app_nth1 by exact Hi.
  rewrite List.Forall_forall in HF. apply HF, nth_In, Hi.
Qed.

(* ------------------------------------------------------------------ *)
(** ** The report query *)

Lemma date_desc_total a b : date_desc a b = false -> date_desc b a = true.
Proof.
  destruct a as [x|], b as [y|]; simpl; try discriminate; try reflexivity.
  intros H. apply N.leb_gt in H. apply N.leb_le. lia.
Qed.

Lemma insert_desc_perm q l : Permutation (insert_desc q l) (q :: l).
Proof.
  induction l as [|h t IH]; simpl; [reflexivity|].
  destruct (date_desc (q_date q) (q_date h)); [reflexivity|].
  rewrite IH. apply perm_swap.
Qed.

Lemma insert_desc_hd h q l :
  HdRel desc_rel h l -> desc_rel h q -> HdRel desc_rel h (insert_desc q l).
Proof.
  intros Hh Hq. destruct l as [|h' t]; simpl; [constructor; exact Hq|].
  destruct (date_desc (q_date q) (q_date h')); constructor; [exact Hq|].
  inversion Hh; assumption.
Qed.

Lemma insert_desc_sorted q l : Sorted desc_rel l -> Sorted desc_rel (insert_desc q l).
Proof.
  induction l as [|h t IH]; intros Hs; simpl; [repeat constructor|].
  destruct (date_desc (q_date q) (q_date h)) eqn:E.
  - constructor; [exact Hs|constructor; exact E].
  - inversion Hs as [|? ? Ht Hh]; subst. constructor; [apply IH, Ht|].
    apply insert_desc_hd; [exact Hh|]. apply date_desc_total, E.
Qed.

Lemma sql_select_sorted t : Sorted desc_rel (sql_select t).
Proof.
  unfold sql_select. induction (map project _) as [|q l IH]; simpl;
    [constructor|apply insert_desc_sorted, IH].
Qed.

Lemma sql_select_perm t :
  Permutation (sql_select t) (map project (List.filter where_clause (map s_row t))).
Proof.
  unfold sql_select. induction (map project _) as [|q l IH]; simpl; [reflexivity|].
  rewrite insert_desc_perm, IH. reflexivity.
Qed.

Lemma print_all_eq ls w : print_all ls w = (inl tt, set_out (w_out w ++ ls) w).
Proof.
  revert w. induction ls as [|l ls IH]; intros w.
  - simpl. rewrite app_nil_r. destruct w; reflexivity.
  - simpl. unfold bind. rewrite print_eq, IH. cbn [w_out set_out].
    rewrite <- app_assoc. reflexivity.
Qed.

Lemma db_select_out w : w_out (snd (db_select w)) = w_out w.
Proof.
  unfold db_select, bind, log_op, modify, consume, gets, raise, ret.
  cbn [w_drop w_closed set_ops]. destruct (w_closed w); [reflexivity|].
  destruct (w_drop w) as [[|k]|]; try reflexivity;
    cbn [w_tbl set_db set_ops]; destruct (w_tbl w); reflexivity.
Qed.

Lemma db_select_ok w rs w' :
  db_select w = (inl rs, w') -> exists t, w_tbl w = Some t /\ rs = sql_select t.
Proof.
  unfold db_select, bind, log_op, modify, consume, gets, raise, ret.
  cbn [w_drop w_closed set_ops]. destruct (w_closed w); [discriminate|].
  destruct (w_drop w) as [[|k]|]; try discriminate;
    cbn [w_tbl set_db set_ops]; destruct (w_tbl w) as [t|]; try discriminate;
    intros H; injection H as <- _; eauto.
Qed.

#[export] Instance keeps_out_pre : WPreorder keeps_out.
Proof.
  split.
  - intros w. exists []. rewrite app_nil_r. split; [reflexivity|intros []].
  - intros w1 w2 w3 (n1 & E1 & N1) (n2 & E2 & N2). exists (n1 ++ n2).
    rewrite E2, E1, app_assoc. split; [reflexivity|].
    intros Hin. apply in_app_or in Hin as [Hin|Hin]; contradiction.
Qed.

#[export] Instance keeps_conn_out_pre : WPreorder keeps_conn_out.
Proof.
  split.
  - intros w. split; [reflexivity|apply wp_refl].
  - intros w1 w2 w3 [C1 O1] [C2 O2]. split; [congruence|exact (wp_trans _ _ _ O1 O2)].
Qed.

Lemma ko_of_kc {A} (m : M A) : preserves keeps_conn_out m -> preserves keeps_out m.
Proof. intros H w r w' E. exact (proj2 (H _ _ _ E)). Qed.

Lemma kc_print l : l <> LCommitted -> preserves keeps_conn_out (print l).
Proof.
  intros Hl w r w' H. rewrite print_eq in H. injection H as _ <-.
  split; [reflexivity|]. exists [l]. split; [reflexivity|]. intros [E|[]]. congruence.
Qed.

Ltac kc_close :=
  intros ?w; split; [reflexivity|]; exists []; rewrite app_nil_r;
  split; [reflexivity|intros []].

Lemma kc_log_op o : preserves keeps_conn_out (log_op o).
Proof. apply pr_modify. kc_close. Qed.

Lemma kc_consume : preserves keeps_conn_out consume.
Proof. apply pr_consume; [intros w d; revert w|]; kc_close. Qed.

Lemma kc_link_ok : preserves keeps_conn_out link_ok.
Proof. apply pr_link_ok. kc_close. Qed.

Lemma kc_nextval : preserves keeps_conn_out nextval.
Proof. apply pr_nextval. intros w s. revert w. kc_close. Qed.

Ltac kc_step :=
  first [ apply pr_ret | apply pr_raise | apply pr_gets | apply kc_link_ok
        | apply pr_cursor_ok | apply kc_nextval
        | apply kc_log_op | apply kc_consume
        | apply kc_print; discriminate
        | apply pr_bind; [|intros ?]
        | apply pr_try_except; [|intros ?]
        | apply pr_modify; kc_close
        | match goal with
          | |- preserves _ (if ?b then _ else _) => destruct b
          | |- preserves _ (match ?b with _ => _ end) => destruct b
          end ].

Section Keeps.
Variable date_in : string -> option N.
Variable date_out : N -> string.

Lemma kc_executemany b : preserves keeps_conn_out (executemany date_in b).
Proof.
  unfold executemany. apply pr_bind; [apply kc_log_op|intros _].
  apply pr_bind; [apply pr_cursor_ok|intros _].
  induction b as [|t b IH]; [apply pr_ret|].
  apply pr_bind; [|intros _; exact IH]. unfold exec_upsert. repeat kc_step.
Qed.

Lemma kc_insert_rows n rows st : preserves keeps_conn_out (insert_rows date_in n rows st).
Proof.
  revert st. induction rows as [|row rows IH]; intros st; simpl; [apply pr_ret|].
  apply pr_bind; [|intros ?; apply IH]. unfold process_row, name_test, py_startswith.
  cbv zeta. repeat (apply kc_executemany || kc_step).
Qed.

Lemma kc_load fname n : preserves keeps_conn_out (process_and_insert_csv date_in fname n).
Proof.
  unfold process_and_insert_csv, load_body, load_handler, open_file.
  repeat (apply kc_insert_rows || apply kc_executemany || kc_step).
  intros w r w' H. destruct (w_fs w fname); injection H as _ <-; apply wp_refl.
Qed.

Lemma kc_setup : preserves keeps_conn_out setup_database.
Proof. unfold setup_database, db_create, db_commit, db_rollback. repeat kc_step. Qed.

Lemma kc_commit : preserves keeps_conn_out db_commit.
Proof. unfold db_commit. repeat kc_step. Qed.

Lemma kc_print_all ls :
  ~ In LCommitted ls -> preserves keeps_conn_out (print_all ls).
Proof.
  induction ls as [|l ls IH]; intros Hn; [apply pr_ret|]. simpl.
  apply pr_bind; [|intros _; apply IH; intros Hi; apply Hn; right; exact Hi].
  apply kc_print. intros ->. apply Hn. left. reflexivity.
Qed.

Lemma kc_get_filtered : preserves keeps_conn_out (get_filtered_customers date_out).
Proof.
  unfold get_filtered_customers, db_select. repeat kc_step.
  apply kc_print_all. intros Hin. apply in_map_iff in Hin as (x & E & _). discriminate E.
Qed.

End Keeps.

(* ------------------------------------------------------------------ *)
(** ** The phases of the main block *)

Lemma ko_connect : preserves keeps_out db_connect.
Proof.
  unfold db_connect. apply pr_bind; [apply ko_of_kc, kc_log_op|intros _].
  apply pr_bind; [apply pr_gets|intros []]; [|apply pr_raise].
  apply pr_modify. intros w. exists []. rewrite app_nil_r. split; [reflexivity|intros []].
Qed.

Lemma ko_close : preserves keeps_out db_close.
Proof.
  unfold db_close. apply pr_bind; [apply ko_of_kc, kc_log_op|intros _].
  apply pr_modify. intros w. exists []. rewrite app_nil_r. split; [reflexivity|intros []].
Qed.

Lemma connect_ok w u w' :
  db_connect w = (inl u, w') -> w_ops w' = w_ops w ++ [OpConnect] /\ w_conn w' = true.
Proof.
  unfold db_connect, bind, gets, log_op, modify, raise. cbn [w_server_up set_ops].
  destruct (w_server_up w); [|discriminate]. intros H; injection H as _ <-. auto.
Qed.

Lemma commit_ok w u w' : db_commit w = (inl u, w') -> w_ops w' = w_ops w ++ [OpCommit].
Proof.
  unfold db_commit, bind, link_ok, log_op, modify. cbn [w_drop w_closed set_ops].
  destruct (w_closed w); [discriminate|].
  destruct (w_drop w) as [[|k]|]; try discriminate; intros H; injection H as _ <-;
    reflexivity.
Qed.

Lemma commit_open w u w' : db_commit w = (inl u, w') -> w_closed w' = false.
Proof.
  unfold db_commit, bind, link_ok, log_op, modify. cbn [w_drop w_closed set_ops].
  destruct (w_closed w) eqn:Hc; [discriminate|].
  destruct (w_drop w) as [[|k]|]; try discriminate; intros H; injection H as _ <-;
    exact Hc.
Qed.

(** A setup that returns normally leaves the connection open. *)
Lemma setup_open w u w' : setup_database w = (inl u, w') -> w_closed w' = false.
Proof.
  unfold setup_database, try_except. intros H.
  destruct ((db_create;;; db_commit;;; print LSetupOk) w) as [[a|e] w1] eqn:E.
  - injection H as _ <-. inv_bind E. inv_bind E. apply print_inv in E as ->.
    exact (commit_open _ _ _ Hm0).
  - inv_bind H. inv_bind H. discriminate H.
Qed.

Lemma setup_ok w u w' :
  setup_database w = (inl u, w') -> w_ops w' = w_ops w ++ [OpExec StCreate; OpCommit].
Proof.
  unfold setup_database, try_except. intros H.
  destruct ((db_create;;; db_commit;;; print LSetupOk) w) as [[a|e] w1] eqn:E.
  - injection H as _ <-. inv_bind E. inv_bind E. apply print_inv in E as ->.
    apply commit_ok in Hm0. unfold db_create, bind, log_op, consume, modify in Hm.
    cbn [w_drop w_closed set_ops] in Hm. destruct (w_closed w); [discriminate|].
    destruct (w_drop w) as [[|k]|]; try discriminate; injection Hm as _ <-;
      cbn [w_ops set_out set_db set_ops] in *; rewrite Hm0, <- app_assoc; reflexivity.
  - inv_bind H. inv_bind H. discriminate H.
Qed.

Lemma load_ops date_in fname n w w' :
  process_and_insert_csv date_in fname n w = (inl tt, w') ->
  exists calls, w_ops w' = w_ops w ++ map OpExecMany calls.
Proof.
  intros H. destruct (w_fs w fname) as [f|] eqn:Hf.
  - destruct (load_ok _ _ _ _ _ _ Hf H) as (_ & calls & Ho & _). eauto.
  - unfold process_and_insert_csv in H. inv_bind H. apply print_inv in Hm as ->.
    unfold try_except, load_body in H. unfold bind at 1 in H. unfold open_file in H.
    cbv beta in H. cbn [w_fs set_out] in H. rewrite Hf in H. cbv iota beta in H.
    cbv [load_handler] in H.
    apply print_inv in H as ->. exists []. rewrite app_nil_r. reflexivity.
Qed.

Lemma get_filtered_run date_out w :
  exists w', get_filtered_customers date_out w = (inl tt, w') /\
             w_ops w' = w_ops w ++ [OpExec StSelect].
Proof.
  unfold get_filtered_customers. unfold bind at 1. rewrite print_eq. cbv beta iota.
  unfold try_except, bind at 1.
  set (w1 := set_out (w_out w ++ [LQueryHeader]) w).
  assert (Hops : w_ops (snd (db_select w1)) = w_ops w ++ [OpExec StSelect]).
  { unfold db_select, bind, log_op, modify, consume, gets, raise, ret.
    cbn [w_drop w_closed set_ops]. destruct (w_closed w1); [reflexivity|].
    destruct (w_drop w1) as [[|k]|]; try reflexivity;
      cbn [w_tbl set_db set_ops]; destruct (w_tbl w1); reflexivity. }
  destruct (db_select w1) as [[rs|e] w2]; cbn [snd] in Hops.
  - destruct rs; [rewrite print_eq|rewrite print_all_eq]; eexists;
      (split; [reflexivity|exact Hops]).
  - rewrite print_eq. eexists. split; [reflexivity|exact Hops].
Qed.

(* ------------------------------------------------------------------ *)
(** ** The loader leaves the transaction state alone *)

#[export] Instance keeps_commit_pre : WPreorder keeps_commit.
Proof.
  split.
  - intros w. split; reflexivity.
  - intros w1 w2 w3 [C1 K1] [C2 K2]. split; congruence.
Qed.

Ltac km_step :=
  first [ apply pr_ret | apply pr_raise | apply pr_gets | apply pr_cursor_ok
        | apply pr_link_ok; intros ?w; split; reflexivity
        | apply pr_nextval; intros ?w ?s; split; reflexivity
        | apply pr_consume; intros ?w; [intros ?d|]; split; reflexivity
        | apply pr_bind; [|intros ?]
        | apply pr_try_except; [|intros ?]
        | apply pr_modify; intros ?w; split; reflexivity
        | match goal with
          | |- preserves _ (if ?b then _ else _) => destruct b
          | |- preserves _ (match ?b with _ => _ end) => destruct b
          end ].

Section Commit.
Variable date_in : string -> option N.

Lemma km_executemany b : preserves keeps_commit (executemany date_in b).
Proof.
  unfold executemany, log_op. apply pr_bind; [km_step|intros _].
  apply pr_bind; [km_step|intros _].
  induction b as [|t b IH]; [apply pr_ret|].
  apply pr_bind; [|intros _; exact IH]. unfold exec_upsert. repeat km_step.
Qed.

Lemma km_insert_rows n rows st : preserves keeps_commit (insert_rows date_in n rows st).
Proof.
  revert st. induction rows as [|row rows IH]; intros st; simpl; [apply pr_ret|].
  apply pr_bind; [|intros ?; apply IH]. unfold process_row, name_test, py_startswith, print.
  cbv zeta. repeat (apply km_executemany || km_step).
Qed.

Lemma km_load fname n : preserves keeps_commit (process_and_insert_csv date_in fname n).
Proof.
  unfold process_and_insert_csv, load_body, load_handler, open_file, print.
  repeat (apply km_insert_rows || apply km_executemany || km_step).
  intros w r w' H. destruct (w_fs w fname); injection H as _ <-; apply wp_refl.
Qed.

(** [open] finds no file: the handler prints the notice and returns. *)
Lemma load_missing_file fname n w :
  w_fs w fname = None ->
  process_and_insert_csv date_in fname n w =
  (inl tt, set_out (w_out w ++ [LStart fname; LNotFound fname]) w).
Proof.
  intros Hf. unfold process_and_insert_csv. unfold bind at 1. rewrite print_eq.
  cbv beta iota. unfold try_except, load_body. unfold bind at 1. unfold open_file.
  cbv beta. cbn [w_fs set_out]. rewrite Hf. cbv iota beta. cbv [load_handler].
  rewrite print_eq. cbn [w_out set_out]. rewrite <- app_assoc. reflexivity.
Qed.

(** A load that raises never raises [FileNotFoundError]. *)
Lemma load_raises_not_missing fname n w e w' :
  process_and_insert_csv date_in fname n w = (inr e, w') -> e <> FileNotFoundError.
Proof.
  unfold process_and_insert_csv. intros H. unfold bind at 1 in H. rewrite print_eq in H.
  cbv beta iota in H. unfold try_except in H.
  match type of H with
  | match ?b with _ => _ end = _ => destruct b as [[u|e0] w1]
  end; [discriminate|].
  cbv [load_handler] in H.
  destruct e0; try (rewrite print_eq in H; discriminate);
    unfold bind, raise in H; rewrite print_eq in H; injection H as <- _; discriminate.
Qed.

(** Any other error raised in the [try] block is reported and re-raised. *)
Lemma load_propagates fname n w e w1 :
  load_body date_in fname n (set_out (w_out w ++ [LStart fname]) w) = (inr e, w1) ->
  e <> FileNotFoundError ->
  process_and_insert_csv date_in fname n w =
  (inr e, set_out (w_out w1 ++ [LLoadError e]) w1).
Proof.
  intros H Hne. unfold process_and_insert_csv. unfold bind at 1. rewrite print_eq.
  cbv beta iota. unfold try_except. rewrite H. cbv [load_handler].
  destruct e; try (exfalso; apply Hne; reflexivity);
    unfold bind, raise; rewrite print_eq; reflexivity.
Qed.

End Commit.

Lemma commit_live w :
  w_drop w = None -> w_closed w = false ->
  db_commit w = (inl tt, set_tx (w_conn w) (w_tbl w) (w_tbl w) (set_ops (w_ops w ++ [OpCommit]) w)).
Proof.
  intros Hd Hc. unfold db_commit, bind, log_op, link_ok, modify. cbn [w_drop w_closed set_ops].
  rewrite Hd, Hc. reflexivity.
Qed.

(** A session set up on a healthy link whose file is missing goes on to
    commit, to query, and to close. *)
Lemma main_missing_file date_in date_out w w0 w1 r w' :
  (db_connect;;; print LConnected) w = (inl tt, w0) ->
  setup_database w0 = (inl tt, w1) ->
  w_fs w1 CSV_FILE_TO_PROCESS = None -> w_drop w1 = None ->
  main_block date_in date_out w = (r, w') ->
  w_ops w' = w_ops w1 ++ [OpCommit; OpExec StSelect; OpClose] /\ In LCommitted (w_out w').
Proof.
  intros H0 Hs Hf Hd H.
  apply bind_inl in H0 as (a & v & Hc & Hp). apply print_inv in Hp as ->.
  pose proof (connect_ok _ _ _ Hc) as [_ Cv].
  pose proof (kc_setup _ _ _ Hs) as [C1 _]. cbn [w_conn set_out] in C1.
  pose proof (setup_open _ _ _ Hs) as Hcl.
  unfold main_block, try_finally, try_except in H.
  unfold bind at 1 in H. rewrite Hc in H. cbv beta iota in H.
  unfold bind at 1 in H. rewrite print_eq in H. cbv beta iota in H.
  unfold bind at 1 in H. rewrite Hs in H. cbv beta iota in H.
  unfold bind at 1 in H. rewrite (load_missing_file _ _ _ _ Hf) in H. cbv beta iota in H.
  unfold bind at 1 in H. rewrite commit_live in H by assumption. cbv beta iota in H.
  unfold bind at 1 in H. rewrite print_eq in H. cbv beta iota in H.
  match type of H with
  | match (match get_filtered_customers date_out ?v with _ => _ end) with _ => _ end = _ =>
      destruct (get_filtered_run date_out v) as (w6 & E6 & O6);
      pose proof (kc_get_filtered date_out _ _ _ E6) as [C6 (new & N6 & _)];
      rewrite E6 in H
  end.
  cbv beta iota in H. cbn [w_conn w_ops w_out set_out set_tx set_ops] in C6, O6, N6.
  unfold bind at 1, gets in H. rewrite C6, C1, Cv in H. cbv beta iota in H.
  unfold bind, db_close, log_op, print, modify in H. cbv beta iota in H.
  injection H as _ <-. cbn [w_ops w_out set_out set_tx set_ops]. split.
  - rewrite O6, <- !app_assoc. reflexivity.
  - rewrite N6. apply in_or_app. left. apply in_or_app. left. apply in_or_app. right. left.
    reflexivity.
Qed.

(** A load that raises after a successful setup: the handler of the main
    block rolls back unless the error is [OperationalError], the connection
    is closed, and nothing the loader wrote is committed. *)
Lemma main_load_failure date_in date_out w w0 w1 e w2 r w' :
  (db_connect;;; print LConnected) w = (inl tt, w0) ->
  setup_database w0 = (inl tt, w1) ->
  process_and_insert_csv date_in CSV_FILE_TO_PROCESS 1000 w1 = (inr e, w2) ->
  main_block date_in date_out w = (r, w') ->
  w_ops w' = w_ops w2 ++ (if exn_eq_dec e OperationalError then [] else [OpRollback])
                      ++ [OpClose] /\
  w_out w' = w_out w2 ++ [if exn_eq_dec e OperationalError then LConnError e
                          else LRollingBack e; LClosed] /\
  w_committed w' = w_committed w1 /\ w_tbl w' = w_committed w1 /\ w_conn w' = false.
Proof.
  intros H0 Hs Hl H.
  apply bind_inl in H0 as (a & v & Hc & Hp). apply print_inv in Hp as ->.
  pose proof (connect_ok _ _ _ Hc) as [_ Cv].
  pose proof (kc_setup _ _ _ Hs) as [C1 _]. cbn [w_conn set_out] in C1.
  pose proof (km_load date_in _ _ _ _ _ Hl) as [C2 K2].
  unfold main_block, try_finally, try_except in H.
  unfold bind at 1 in H. rewrite Hc in H. cbv beta iota in H.
  unfold bind at 1 in H. rewrite print_eq in H. cbv beta iota in H.
  unfold bind at 1 in H. rewrite Hs in H. cbv beta iota in H.
  unfold bind at 1 in H. rewrite Hl in H. cbv beta iota in H.
  assert (Cw2 : w_conn w2 = true) by congruence.
  destruct (exn_eq_dec e OperationalError) as [->|Hne].
  - unfold bind, gets, print, modify, db_close, log_op in H.
    cbn [w_conn set_out] in H. rewrite Cw2 in H. cbv beta iota in H.
    injection H as _ <-.
    cbn [w_ops w_out w_committed w_tbl w_conn set_out set_tx set_ops set_closed].
    rewrite K2, <- app_assoc. auto.
  - destruct w2 as [fs2 up2 d2 c2 t2 cm2 sq2 ops2 out2 cl2].
    cbn [w_conn w_committed] in Cw2, K2. subst c2.
    unfold db_close, db_rollback, print, log_op, link_ok, gets, raise, modify, bind in H.
    destruct cl2; [|destruct d2 as [[|k]|]]; cbn in H; injection H as _ <-; cbn;
      rewrite K2, <- !app_assoc; auto.
Qed.


(* ================================================================== *)
(** * Claims *)

(** C10: whatever the batch size, when the loader reads the file to the end
    and returns normally, the bulk write calls it issued, concatenated in
    call order, are exactly the normalized tuples of the rows that pass the
    filter, in source order: each kept row is sent once, none is dropped,
    duplicated or reordered across batch boundaries. *)
Theorem bulk_writes_are_kept_rows date_in fname n f w w' :
  w_fs w fname = Some f ->
  process_and_insert_csv date_in fname n w = (inl tt, w') ->
  exists calls,
    w_ops w' = w_ops w ++ map OpExecMany calls /\
    concat calls = kept_tuples (dict_reader (f_records f)).
Proof.
  intros Hf H. destruct (load_ok _ _ _ _ _ _ Hf H) as (_ & calls & Ho & Hc & _).
  exists calls. split; assumption.
Qed.

(** C4: with a positive batch size N and M kept rows, a load that returns
    normally issues ceil(M/N) bulk write calls; all but the last carry N
    records, the last carries M mod N records (N when M mod N = 0), and no
    call is issued for an empty trailing batch, so M = 0 gives no call. *)
Theorem batch_call_count_and_sizes date_in fname n f w w' :
  (0 < n)%Z ->
  w_fs w fname = Some f ->
  process_and_insert_csv date_in fname n w = (inl tt, w') ->
  let M := length (kept_tuples (dict_reader (f_records f))) in
  let N := Z.to_nat n in
  exists calls,
    w_ops w' = w_ops w ++ map OpExecMany calls /\
    length calls = (M + N - 1) / N /\
    (forall i, S i < length calls -> length (nth i calls []) = N) /\
    (calls <> [] ->
     length (List.last calls []) = (if M mod N =? 0 then N else M mod N)) /\
    (M = 0 -> calls = []).
Proof.
  intros Hn Hf H M N.
  assert (HNd : N = Z.to_nat n) by reflexivity. clearbody N.
  assert (HMd : M = length (kept_tuples (dict_reader (f_records f))))
    by reflexivity. clearbody M.
  destruct (load_ok _ _ _ _ _ _ Hf H)
    as (_ & calls & Ho & Hc & Hs & _).
  destruct (Hs Hn) as (full & rest & Hcr & HF & Hr).
  assert (HF' : Forall (fun c => length c = N) full).
  { eapply Forall_impl; [exact HF|]. intros c Hcn. cbv beta in *. lia. }
  assert (HN : 0 < N) by lia.
  assert (HM : M = N * length full + length (concat rest)).
  { rewrite HMd, <- Hc, Hcr, concat_app, length_app.
    rewrite (concat_length_uniform _ _ HF'). reflexivity. }
  exists calls. split; [exact Ho|].
  destruct Hr as [->|(b & -> & Hb0 & HbN)].
  - rewrite app_nil_r in Hcr. simpl in HM. rewrite Nat.add_0_r in HM.
    assert (Hdiv : (M + N - 1) / N = length full).
    { symmetry. apply (Nat.div_unique _ _ _ (N - 1)); lia. }
    assert (Hmod : M mod N = 0).
    { symmetry. apply (Nat.mod_unique _ _ (length full)); lia. }
    split; [|split; [|split]].
    + rewrite Hdiv, Hcr. reflexivity.
    + intros i Hi. apply (nth_app_l_in calls full [] i N); subst calls;
        rewrite ?app_nil_r in *; auto; lia.
    + intros Hne. rewrite Hmod. simpl. subst calls.
      destruct full as [|c full'] using rev_ind; [contradiction|].
      rewrite List.last_last. apply Forall_app in HF' as [_ HF'].
      inversion HF'. assumption.
    + intros HM0. subst calls. destruct full as [|c full']; [reflexivity|].
      simpl in HM. lia.
  - simpl in HM. rewrite app_nil_r in HM.
    assert (HbN' : length b < N) by lia.
    assert (Hdiv : (M + N - 1) / N = S (length full)).
    { symmetry. apply (Nat.div_unique _ _ _ (length b - 1)); lia. }
    assert (Hmod : M mod N = length b).
    { symmetry. apply (Nat.mod_unique _ _ (length full)); lia. }
    split; [|split; [|split]].
    + rewrite Hdiv, Hcr, length_app. simpl. lia.
    + intros i Hi. apply (nth_app_l_in calls full [b] i N); auto.
      rewrite Hcr, length_app in Hi. simpl in Hi. lia.
    + intros _. rewrite Hcr, List.last_last, Hmod.
      destruct (length b =? 0) eqn:E; [apply Nat.eqb_eq in E; lia|reflexivity].
    + intros HM0. lia.
Qed.

(** C3 (as amended): when the loader reads a present file to the end and
    returns normally, its counters [total_processed] (the data rows, header
    and empty records excluded) and [total_inserted] (the rows passing the
    filter) end up as the last status lines it prints; the function itself
    returns [None] (its result type is [unit]) and hands no counter back. *)
Theorem loader_prints_counters date_in fname n f w w' :
  w_fs w fname = Some f ->
  process_and_insert_csv date_in fname n w = (inl tt, w') ->
  let rows := dict_reader (f_records f) in
  exists pre,
    w_out w' =
    pre ++ [LComplete; LProcessed (length rows);
            LInserted (length (List.filter passes rows))].
Proof.
  intros Hf H rows. destruct (load_ok _ _ _ _ _ _ Hf H) as (_ & _ & _ & _ & _ & Hout).
  exact Hout.
Qed.

(** C5: the upsert is keyed on [customer_id] and replaces: on a table with
    unique keys, upserting a row whose key is already stored succeeds,
    keeps the keys unique, leaves exactly one row with that key, which
    carries the new values in every column (and the old [id]), and leaves
    the other rows as they were.  Loading a file a second time after a
    successful load on a live, open connection leaves the table exactly as
    the first load left it whenever it returns normally; and it does return
    normally when the [id] sequence, which every statement advances, has
    room for one more value per kept row. *)
Theorem upsert_replace_and_reload_idempotent :
  (forall t nid r x,
     List.NoDup (map key t) -> In x t -> key x = c_customer_id r ->
     exists t', upsert t nid r = Some t' /\
     List.NoDup (map key t') /\
     List.filter (same_key r) t' = [mkSrow (s_id x) r] /\
     List.filter (fun y => negb (same_key r y)) t' =
     List.filter (fun y => negb (same_key r y)) t) /\
  (forall date_in fname n f w w1,
     w_drop w = None -> w_closed w = false -> w_fs w fname = Some f ->
     process_and_insert_csv date_in fname n w = (inl tt, w1) ->
     (forall w2, process_and_insert_csv date_in fname n w1 = (inl tt, w2) ->
                 w_tbl w2 = w_tbl w1) /\
     ((N.of_nat (w_seq w1) + N.of_nat (length (kept_tuples (dict_reader (f_records f))))
        <= SEQ_MAX)%N ->
      exists w2, process_and_insert_csv date_in fname n w1 = (inl tt, w2) /\
                 w_tbl w2 = w_tbl w1)).
Proof.
  split; [exact upsert_existing|].
  intros date_in fname n f w w1 Hd Hc Hf H1.
  destruct (load_tracks _ _ _ _ _ _ Hd Hf H1) as (D1 & F1 & C1 & c1 & O1 & A1).
  destruct (load_ok _ _ _ _ _ _ Hf H1) as (_ & k1 & Ok1 & Hk1 & _).
  rewrite O1 in Ok1. apply ops_calls_eq in Ok1. subst k1.
  assert (Hf1 : w_fs w1 fname = Some f) by congruence.
  split.
  - intros w2 H2.
    destruct (load_tracks _ _ _ _ _ _ D1 Hf1 H2) as (_ & _ & _ & c2 & O2 & A2).
    destruct (load_ok _ _ _ _ _ _ Hf1 H2) as (_ & k2 & Ok2 & Hk2 & _).
    rewrite O2 in Ok2. apply ops_calls_eq in Ok2. subst k2.
    rewrite Hk2, <- Hk1 in A2.
    exact (apply_tuples_twice _ _ _ _ _ A1 A2).
  - intros Hroom. rewrite Hk1 in A1.
    pose proof (apply_tuples_again _ _ _ _ A1 Hroom) as A2. cbn [fst snd] in A2.
    rewrite <- Hk1 in A2.
    destruct (load_replay date_in fname n f w w1 c1 w1 _ Hd Hf H1 O1 D1
                (eq_trans C1 Hc) F1 A2) as (w2 & E & S).
    exists w2. split; [exact E|]. injection S as T _. exact T.
Qed.

(** C9: when every label of the header is one of the column labels the
    script lists (among them ['Subscription Date']), no row has the key
    ['Subscription date'] the script looks up, so every tuple built from a
    row, and in particular every tuple the loader sends, carries [None] as
    its subscription date, whatever the row holds. *)
Theorem subscription_date_never_read hdr data :
  Forall (fun h => In h CSV_HEADERS) hdr ->
  (forall row first last, In row (dict_reader (hdr :: data)) ->
     t_subscription_date (build_tuple row first last) = None) /\
  Forall (fun t => t_subscription_date t = None)
    (kept_tuples (dict_reader (hdr :: data))).
Proof.
  intros Hh.
  assert (Hrow : forall row first last, In row (dict_reader (hdr :: data)) ->
            t_subscription_date (build_tuple row first last) = None).
  { intros row first last Hin. cbn [dict_reader] in Hin.
    apply in_map_iff in Hin as (cells & <- & _).
    cbn [build_tuple t_subscription_date]. unfold row_get.
    rewrite dict_row_notin; [reflexivity|]. intros Hin.
    rewrite List.Forall_forall in Hh. apply Hh in Hin.
    unfold CSV_HEADERS in Hin. cbn [In] in Hin.
    repeat (destruct Hin as [Hin|Hin]; [discriminate Hin|]). exact Hin. }
  split; [exact Hrow|].
  apply List.Forall_forall. intros t Ht. unfold kept_tuples in Ht.
  apply in_map_iff in Ht as (row & <- & Hin).
  apply filter_In in Hin as [Hin _]. exact (Hrow _ _ _ Hin).
Qed.

(** C8: the report reader always returns normally.  After its header line
    it prints either one line reporting the failed query, or, when the
    query succeeds on the table [t], the rows [(first_name, last_name,
    company, subscription_date)] of exactly the records of [t] whose first
    name starts with 'A' and last name with 'F', ordered by subscription
    date descending, one ["Name: ... Subscribed: ..."] line per row, or the
    single no-match line when there is no such row. *)
Theorem report_reader_behaviour date_out w :
  exists w',
    get_filtered_customers date_out w = (inl tt, w') /\
    ((exists e, w_out w' = w_out w ++ [LQueryHeader; LQueryError e]) \/
     exists t, w_tbl w = Some t /\
       Permutation (sql_select t)
         (map project (List.filter where_clause (map s_row t))) /\
       Sorted desc_rel (sql_select t) /\
       w_out w' = w_out w ++ LQueryHeader ::
         match sql_select t with
         | [] => [LNoMatch]
         | rs => map (fun r => LCustomer (fmt_customer date_out r)) rs
         end).
Proof.
  unfold get_filtered_customers. unfold bind at 1. rewrite print_eq. cbv beta iota.
  unfold try_except, bind at 1.
  set (w1 := set_out (w_out w ++ [LQueryHeader]) w).
  pose proof (db_select_out w1) as Hout.
  destruct (db_select w1) as [[rs|e] w2] eqn:Hs.
  - destruct (db_select_ok _ _ _ Hs) as (t & Ht & ->).
    cbn [snd] in Hout.
    destruct (sql_select t) as [|q qs] eqn:Eq.
    + eexists. split; [reflexivity|right]. exists t.
      rewrite Eq. split; [exact Ht|split; [rewrite <- Eq; apply sql_select_perm|
        split; [constructor|]]].
      cbn [w_out set_out]. rewrite Hout. cbn [w1 w_out set_out].
      rewrite <- app_assoc. reflexivity.
    + rewrite print_all_eq. eexists. split; [reflexivity|right]. exists t.
      rewrite Eq. split; [exact Ht|split; [rewrite <- Eq; apply sql_select_perm|
        split; [rewrite <- Eq; apply sql_select_sorted|]]].
      cbn [w_out set_out]. rewrite Hout. cbn [w1 w_out set_out].
      rewrite <- app_assoc. reflexivity.
  - rewrite print_eq. eexists. split; [reflexivity|left]. exists e.
    cbn [snd] in Hout. cbn [w_out set_out]. rewrite Hout. cbn [w1 w_out set_out].
    rewrite <- app_assoc. reflexivity.
Qed.

(** C6 (as amended): along a run of the main block that reaches the line
    announcing the commit, the connection issues exactly two commits: the
    first inside [setup_database], right after [CREATE TABLE] and before any
    row is written, the second after the loader has returned; all bulk write
    calls of the loader lie between the two, none is followed by a commit of
    its own, and the query and the close come after the second commit. *)
Theorem setup_commit_then_single_load_commit date_in date_out w r w' :
  main_block date_in date_out w = (r, w') ->
  ~ In LCommitted (w_out w) -> In LCommitted (w_out w') ->
  exists calls,
    w_ops w' = w_ops w ++ [OpConnect; OpExec StCreate; OpCommit] ++
               map OpExecMany calls ++ [OpCommit; OpExec StSelect; OpClose].
Proof.
  intros H Hn0 Hin. unfold main_block, try_finally, try_except in H.
  match type of H with
  | match (match ?body w with _ => _ end) with _ => _ end = _ =>
    destruct (body w) as [[u|e] w0] eqn:Hb
  end.
  - cbv beta iota in H.
    apply bind_inl in Hb as (a1 & v1 & Hc & Hb).
    apply bind_inl in Hb as (a2 & v2 & Hp & Hb).
    apply bind_inl in Hb as (a3 & v3 & Hs & Hb).
    apply bind_inl in Hb as (a4 & v4 & Hl & Hb). destruct a4.
    apply bind_inl in Hb as (a5 & v5 & Hcm & Hb).
    apply bind_inl in Hb as (a6 & v6 & Hp2 & Hb).
    pose proof (kc_setup _ _ _ Hs) as [C3 _].
    pose proof (kc_load date_in _ _ _ _ _ Hl) as [C4 _].
    pose proof (kc_commit _ _ _ Hcm) as [C5 _].
    pose proof (kc_get_filtered date_out _ _ _ Hb) as [C6 _].
    apply connect_ok in Hc as [O1 C1]. apply print_inv in Hp as ->.
    apply print_inv in Hp2 as ->. apply setup_ok in Hs. apply load_ops in Hl as [calls Hl].
    apply commit_ok in Hcm.
    destruct (get_filtered_run date_out (set_out (w_out v5 ++ [LCommitted]) v5)) as (w6 & E6 & O6).
    rewrite Hb in E6. injection E6 as _ <-.
    cbn [w_conn w_ops set_out] in *.
    unfold bind at 1, gets in H. rewrite C6, C5, C4, C3, C1 in H. cbv beta iota in H.
    unfold bind, db_close, log_op, print, modify in H. cbv beta iota in H.
    injection H as _ <-. cbn [w_ops set_out set_tx set_ops].
    exists calls. rewrite O6, Hcm, Hl, Hs, O1, <- !app_assoc. reflexivity.
  - cbv beta iota in H.
    match type of Hb with
    | ?body w = _ => assert (Hpe : preserves_err keeps_out body)
    end.
    { apply pe_bind; [apply ko_connect|intros _].
      apply pe_bind; [apply ko_of_kc, kc_print; discriminate|intros _].
      apply pe_bind; [apply ko_of_kc, kc_setup|intros _].
      apply pe_bind; [apply ko_of_kc, kc_load|intros _].
      apply pe_bind; [apply ko_of_kc, kc_commit|intros _].
      apply pe_total. intros v. unfold bind at 1. rewrite print_eq.
      destruct (get_filtered_run date_out (set_out (w_out v ++ [LCommitted]) v))
        as (v' & E & _).
      rewrite E. eauto. }
    pose proof (Hpe _ _ _ Hb) as K1.
    match type of H with
    | (match ?h w0 with _ => _ end) = _ =>
        assert (Hp2 : preserves keeps_out h);
        [|destruct (h w0) as [r1 w1] eqn:Hh]
    end.
    { apply ko_of_kc. unfold db_rollback. repeat kc_step. }
    pose proof (Hp2 _ _ _ Hh) as K2.
    match type of H with
    | (match ?f w1 with _ => _ end) = _ =>
        assert (Hp3 : preserves keeps_out f);
        [|destruct (f w1) as [[s|e'] w2] eqn:Hf]
    end.
    { apply pr_bind; [apply pr_gets|intros []]; [|apply pr_ret].
      apply pr_bind; [apply ko_close|intros _]. apply ko_of_kc, kc_print. discriminate. }
    all: pose proof (Hp3 _ _ _ Hf) as K3; injection H as _ <-.
    all: destruct (wp_trans _ _ _ K1 (wp_trans _ _ _ K2 K3)) as (new & E & N).
    all: rewrite E in Hin; apply in_app_or in Hin as [Hin|Hin]; contradiction.
Qed.

(** C1 (a row with no Last Name cell): [csv.DictReader] gives the missing
    cell the value [None], [row.get('Last Name', '')] returns that [None]
    rather than [''], and [None.startswith('F')] raises [AttributeError].
    On [short_file] the load aborts at the short first record, the session
    is rolled back, and the second record, an A/F row, is never sent. *)
Theorem short_row_aborts_whole_load :
  let rows := dict_reader (f_records short_file) in
  last_name_of (nth 0 rows ∅) = None /\
  passes (nth 1 rows ∅) = true /\
  let '(r, w') := main_block iso_date_in iso_date_out (world_of short_file None) in
  w_ops w' = [OpConnect; OpExec StCreate; OpCommit; OpRollback; OpClose] /\
  w_out w' = [LConnected; LSetupOk; LStart CSV_FILE_TO_PROCESS;
              LLoadError AttributeError; LRollingBack AttributeError; LClosed] /\
  w_committed w' = Some [].
Proof. vm_compute. repeat split. Qed.

(** C2: the loader reads the date under ['Subscription date'], a key the
    header (['Subscription Date']) does not have.  In the spec's example the
    row of Alice Fox holds ['2020-01-01'] under ['Subscription Date'], yet
    the tuple sent carries [None], and the report prints [Subscribed: None]. *)
Theorem subscription_date_dropped_in_example :
  map (fun r => row_get r "Subscription Date"%string None)
      (dict_reader (f_records ex_file)) = [Some "2020-01-01"%string; Some ""%string] /\
  map t_subscription_date (kept_tuples (dict_reader (f_records ex_file))) = [None] /\
  let '(r, w') := main_block iso_date_in iso_date_out (world_of ex_file None) in
  In (LCustomer "Name: Alice Fox, Company: Acme, Subscribed: None"%string) (w_out w').
Proof. vm_compute. split; [reflexivity|split; [reflexivity|]]. right. right. right.
  right. right. right. right. right. right. left. reflexivity. Qed.

(** C3, counterexample: on the spec's example the loader hands its caller
    nothing but [None] (here [tt]); the counters 2 and 1 are only printed. *)
Lemma loader_returns_no_counters_example :
  process_and_insert_csv iso_date_in CSV_FILE_TO_PROCESS 1000 (ready_world ex_file) =
  (inl tt, snd (process_and_insert_csv iso_date_in CSV_FILE_TO_PROCESS 1000
                  (ready_world ex_file))) /\
  w_out (snd (process_and_insert_csv iso_date_in CSV_FILE_TO_PROCESS 1000
                (ready_world ex_file))) =
  [LStart CSV_FILE_TO_PROCESS; LFinalBatch 1; LComplete; LProcessed 2; LInserted 1].
Proof. vm_compute. split; reflexivity. Qed.

(** C6, counterexample: on the spec's example the run commits twice, and the
    first commit, issued by [setup_database], comes before any row is
    written. *)
Lemma setup_commit_precedes_load_example :
  let '(r, w') := main_block iso_date_in iso_date_out (world_of ex_file None) in
  In LCommitted (w_out w') /\
  length (List.filter is_commit (w_ops w')) = 2 /\
  firstn 3 (w_ops w') = [OpConnect; OpExec StCreate; OpCommit].
Proof. vm_compute. split; [|split; reflexivity]. tauto. Qed.

(** C7 (a connection lost in the middle of a batch): the loader re-raises
    the [OperationalError], and the main block's first handler, the one for
    connection errors, catches it: it reports a connection error and issues
    no rollback; the session is then closed, which discards the open
    transaction on the server's side. *)
Theorem connection_loss_mid_batch_not_rolled_back :
  let '(r, w') := main_block iso_date_in iso_date_out (world_of pair_file (Some 2)) in
  w_ops w' = [OpConnect; OpExec StCreate; OpCommit;
              OpExecMany (kept_tuples (dict_reader (f_records pair_file))); OpClose] /\
  w_out w' = [LConnected; LSetupOk; LStart CSV_FILE_TO_PROCESS;
              LLoadError OperationalError; LConnError OperationalError; LClosed] /\
  w_committed w' = Some [].
Proof. vm_compute. repeat split. Qed.

(** C7 (as amended): a missing file is handled inside the loader, which
    prints a notice and returns normally, and the session goes on to the
    commit; every other error raised in the [try] block of the loader is
    reported and re-raised, so it leaves the loader, and the loader raises
    nothing else.  In the main block the handler for [OperationalError]
    only prints the connection-error report, while any other error is
    reported and rolled back; in both cases the connection is then closed
    and nothing the loader wrote is committed. *)
Theorem load_failures_reach_main_handler date_in date_out :
  (forall fname n w, w_fs w fname = None ->
     process_and_insert_csv date_in fname n w =
     (inl tt, set_out (w_out w ++ [LStart fname; LNotFound fname]) w)) /\
  (forall fname n w e w1,
     load_body date_in fname n (set_out (w_out w ++ [LStart fname]) w) = (inr e, w1) ->
     e <> FileNotFoundError ->
     process_and_insert_csv date_in fname n w =
     (inr e, set_out (w_out w1 ++ [LLoadError e]) w1)) /\
  (forall fname n w e w',
     process_and_insert_csv date_in fname n w = (inr e, w') -> e <> FileNotFoundError) /\
  (forall w w0 w1 r w',
     (db_connect;;; print LConnected) w = (inl tt, w0) ->
     setup_database w0 = (inl tt, w1) ->
     w_fs w1 CSV_FILE_TO_PROCESS = None -> w_drop w1 = None ->
     main_block date_in date_out w = (r, w') ->
     w_ops w' = w_ops w1 ++ [OpCommit; OpExec StSelect; OpClose] /\
     In LCommitted (w_out w')) /\
  (forall w w0 w1 e w2 r w',
     (db_connect;;; print LConnected) w = (inl tt, w0) ->
     setup_database w0 = (inl tt, w1) ->
     process_and_insert_csv date_in CSV_FILE_TO_PROCESS 1000 w1 = (inr e, w2) ->
     main_block date_in date_out w = (r, w') ->
     w_ops w' = w_ops w2 ++ (if exn_eq_dec e OperationalError then [] else [OpRollback])
                         ++ [OpClose] /\
     w_out w' = w_out w2 ++ [if exn_eq_dec e OperationalError then LConnError e
                             else LRollingBack e; LClosed] /\
     w_committed w' = w_committed w1 /\ w_tbl w' = w_committed w1 /\ w_conn w' = false).
Proof.
  split; [exact (load_missing_file date_in)|].
  split; [exact (load_propagates date_in)|].
  split; [exact (load_raises_not_missing date_in)|].
  split; [exact (main_missing_file date_in date_out)|].
  exact (main_load_failure date_in date_out).
Qed.

(** ** Instances of the claims' hypotheses *)

(** C10 at the spec's example: the file is present and the load, with the
    default batch size, returns normally. *)
Lemma bulk_writes_are_kept_rows_witness :
  let w := ready_world ex_file in
  let w' := snd (process_and_insert_csv iso_date_in CSV_FILE_TO_PROCESS 1000 w) in
  (w_fs w CSV_FILE_TO_PROCESS = Some ex_file /\
   process_and_insert_csv iso_date_in CSV_FILE_TO_PROCESS 1000 w = (inl tt, w')) /\
  exists calls,
    w_ops w' = w_ops w ++ map OpExecMany calls /\
    concat calls = kept_tuples (dict_reader (f_records ex_file)).
Proof.
  intros w w'.
  assert (Hf : w_fs w CSV_FILE_TO_PROCESS = Some ex_file) by reflexivity.
  assert (H : process_and_insert_csv iso_date_in CSV_FILE_TO_PROCESS 1000 w = (inl tt, w'))
    by (vm_compute; reflexivity).
  split; [split; assumption|].
  exact (bulk_writes_are_kept_rows _ _ _ _ _ _ Hf H).
Defined.

(** C4 with a batch size of 1 on a file with two kept rows. *)
Lemma batch_call_count_and_sizes_witness :
  let w := ready_world pair_file in
  let w' := snd (process_and_insert_csv iso_date_in CSV_FILE_TO_PROCESS 1 w) in
  ((0 < 1)%Z /\ w_fs w CSV_FILE_TO_PROCESS = Some pair_file /\
   process_and_insert_csv iso_date_in CSV_FILE_TO_PROCESS 1 w = (inl tt, w')) /\
  let M := length (kept_tuples (dict_reader (f_records pair_file))) in
  let N := Z.to_nat 1 in
  exists calls,
    w_ops w' = w_ops w ++ map OpExecMany calls /\
    length calls = (M + N - 1) / N /\
    (forall i, S i < length calls -> length (nth i calls []) = N) /\
    (calls <> [] ->
     length (List.last calls []) = (if M mod N =? 0 then N else M mod N)) /\
    (M = 0 -> calls = []).
Proof.
  intros w w'.
  assert (Hn : (0 < 1)%Z) by reflexivity.
  assert (Hf : w_fs w CSV_FILE_TO_PROCESS = Some pair_file) by reflexivity.
  assert (H : process_and_insert_csv iso_date_in CSV_FILE_TO_PROCESS 1 w = (inl tt, w'))
    by (vm_compute; reflexivity).
  split; [split; [|split]; assumption|].
  exact (batch_call_count_and_sizes _ _ _ _ _ _ Hn Hf H).
Defined.

(** C3 (as amended) at the spec's example. *)
Lemma loader_prints_counters_witness :
  let w := ready_world ex_file in
  let w' := snd (process_and_insert_csv iso_date_in CSV_FILE_TO_PROCESS 1000 w) in
  (w_fs w CSV_FILE_TO_PROCESS = Some ex_file /\
   process_and_insert_csv iso_date_in CSV_FILE_TO_PROCESS 1000 w = (inl tt, w')) /\
  let rows := dict_reader (f_records ex_file) in
  exists pre,
    w_out w' =
    pre ++ [LComplete; LProcessed (length rows);
            LInserted (length (List.filter passes rows))].
Proof.
  intros w w'.
  assert (Hf : w_fs w CSV_FILE_TO_PROCESS = Some ex_file) by reflexivity.
  assert (H : process_and_insert_csv iso_date_in CSV_FILE_TO_PROCESS 1000 w = (inl tt, w'))
    by (vm_compute; reflexivity).
  split; [split; assumption|].
  exact (loader_prints_counters _ _ _ _ _ _ Hf H).
Defined.

(** C5, second part, at the spec's example: a first load that returns
    normally on a live, open link, then a second load, which returns
    normally too, the sequence having room. *)
Lemma upsert_replace_and_reload_idempotent_witness :
  let w := ready_world ex_file in
  let w1 := snd (process_and_insert_csv iso_date_in CSV_FILE_TO_PROCESS 1000 w) in
  let w2 := snd (process_and_insert_csv iso_date_in CSV_FILE_TO_PROCESS 1000 w1) in
  (w_drop w = None /\ w_closed w = false /\ w_fs w CSV_FILE_TO_PROCESS = Some ex_file /\
   process_and_insert_csv iso_date_in CSV_FILE_TO_PROCESS 1000 w = (inl tt, w1)) /\
  (process_and_insert_csv iso_date_in CSV_FILE_TO_PROCESS 1000 w1 = (inl tt, w2) /\
   w_tbl w2 = w_tbl w1) /\
  ((N.of_nat (w_seq w1) + N.of_nat (length (kept_tuples (dict_reader (f_records ex_file))))
     <= SEQ_MAX)%N /\
   exists w2, process_and_insert_csv iso_date_in CSV_FILE_TO_PROCESS 1000 w1 = (inl tt, w2) /\
              w_tbl w2 = w_tbl w1).
Proof.
  intros w w1 w2.
  assert (Hd : w_drop w = None) by reflexivity.
  assert (Hc : w_closed w = false) by reflexivity.
  assert (Hf : w_fs w CSV_FILE_TO_PROCESS = Some ex_file) by reflexivity.
  assert (H : process_and_insert_csv iso_date_in CSV_FILE_TO_PROCESS 1000 w = (inl tt, w1))
    by (vm_compute; reflexivity).
  assert (H2 : process_and_insert_csv iso_date_in CSV_FILE_TO_PROCESS 1000 w1 = (inl tt, w2))
    by (vm_compute; reflexivity).
  assert (Hr : (N.of_nat (w_seq w1) +
                N.of_nat (length (kept_tuples (dict_reader (f_records ex_file)))) <= SEQ_MAX)%N)
    by (vm_compute; discriminate).
  destruct (proj2 upsert_replace_and_reload_idempotent _ _ _ _ _ _ Hd Hc Hf H) as [Ha Hb].
  refine (conj _ (conj _ _)).
  - repeat (refine (conj _ _); [assumption|]); assumption.
  - exact (conj H2 (Ha _ H2)).
  - exact (conj Hr (Hb Hr)).
Defined.

(** C9 with the header of the spec's example file. *)
Lemma subscription_date_never_read_witness :
  let data := tl (f_records ex_file) in
  Forall (fun h => In h CSV_HEADERS) CSV_HEADERS /\
  (forall row first last, In row (dict_reader (CSV_HEADERS :: data)) ->
     t_subscription_date (build_tuple row first last) = None) /\
  Forall (fun t => t_subscription_date t = None)
    (kept_tuples (dict_reader (CSV_HEADERS :: data))).
Proof.
  intros data.
  assert (Hh : Forall (fun h => In h CSV_HEADERS) CSV_HEADERS)
    by (apply List.Forall_forall; intros h Hin; exact Hin).
  split; [exact Hh|].
  exact (subscription_date_never_read CSV_HEADERS data Hh).
Defined.

(** C6 (as amended) at the spec's example, run through the main block. *)
Lemma setup_commit_then_single_load_commit_witness :
  let w := world_of ex_file None in
  let rw := main_block iso_date_in iso_date_out w in
  (main_block iso_date_in iso_date_out w = (fst rw, snd rw) /\
   ~ In LCommitted (w_out w) /\ In LCommitted (w_out (snd rw))) /\
  exists calls,
    w_ops (snd rw) = w_ops w ++ [OpConnect; OpExec StCreate; OpCommit] ++
                     map OpExecMany calls ++ [OpCommit; OpExec StSelect; OpClose].
Proof.
  intros w rw.
  assert (H : main_block iso_date_in iso_date_out w = (fst rw, snd rw))
    by exact (surjective_pairing _).
  assert (Hn0 : ~ In LCommitted (w_out w)) by (intros []).
  assert (Hin : In LCommitted (w_out (snd rw))) by (vm_compute; tauto).
  split; [split; [|split]; assumption|].
  exact (setup_commit_then_single_load_commit _ _ _ _ _ H Hn0 Hin).
Defined.

(** C7 (as amended): a session whose file is missing; the session of
    [pair_file] whose link drops in the middle of the batch, where the
    loader re-raises the [OperationalError]; and the session of
    [short_file], where the loader raises [AttributeError] and the main
    block rolls back. *)
Lemma load_failures_reach_main_handler_witness :
  let wm := mkWorld (fun _ => None) true None false None None 0 [] [] false in
  let wm0 := snd ((db_connect;;; print LConnected) wm) in
  let wm1 := snd (setup_database wm0) in
  let rwm := main_block iso_date_in iso_date_out wm in
  let w := world_of pair_file (Some 2) in
  let w0 := snd ((db_connect;;; print LConnected) w) in
  let w1 := snd (setup_database w0) in
  let wb := snd (load_body iso_date_in CSV_FILE_TO_PROCESS 1000
                   (set_out (w_out w1 ++ [LStart CSV_FILE_TO_PROCESS]) w1)) in
  let w2 := snd (process_and_insert_csv iso_date_in CSV_FILE_TO_PROCESS 1000 w1) in
  let rw := main_block iso_date_in iso_date_out w in
  let ws := world_of short_file None in
  let ws0 := snd ((db_connect;;; print LConnected) ws) in
  let ws1 := snd (setup_database ws0) in
  let ws2 := snd (process_and_insert_csv iso_date_in CSV_FILE_TO_PROCESS 1000 ws1) in
  let rws := main_block iso_date_in iso_date_out ws in
  (((db_connect;;; print LConnected) wm = (inl tt, wm0) /\
    setup_database wm0 = (inl tt, wm1) /\
    w_fs wm1 CSV_FILE_TO_PROCESS = None /\ w_drop wm1 = None /\
    main_block iso_date_in iso_date_out wm = (fst rwm, snd rwm)) /\
   w_ops (snd rwm) = w_ops wm1 ++ [OpCommit; OpExec StSelect; OpClose] /\
   In LCommitted (w_out (snd rwm))) /\
  ((load_body iso_date_in CSV_FILE_TO_PROCESS 1000
      (set_out (w_out w1 ++ [LStart CSV_FILE_TO_PROCESS]) w1) = (inr OperationalError, wb) /\
    OperationalError <> FileNotFoundError) /\
   process_and_insert_csv iso_date_in CSV_FILE_TO_PROCESS 1000 w1 =
   (inr OperationalError, set_out (w_out wb ++ [LLoadError OperationalError]) wb)) /\
  (((db_connect;;; print LConnected) w = (inl tt, w0) /\
    setup_database w0 = (inl tt, w1) /\
    process_and_insert_csv iso_date_in CSV_FILE_TO_PROCESS 1000 w1 =
      (inr OperationalError, w2) /\
    main_block iso_date_in iso_date_out w = (fst rw, snd rw)) /\
   w_ops (snd rw) = w_ops w2 ++
     (if exn_eq_dec OperationalError OperationalError then [] else [OpRollback])
     ++ [OpClose] /\
   w_out (snd rw) = w_out w2 ++
     [if exn_eq_dec OperationalError OperationalError then LConnError OperationalError
      else LRollingBack OperationalError; LClosed] /\
   w_committed (snd rw) = w_committed w1 /\ w_tbl (snd rw) = w_committed w1 /\
   w_conn (snd rw) = false) /\
  (((db_connect;;; print LConnected) ws = (inl tt, ws0) /\
    setup_database ws0 = (inl tt, ws1) /\
    process_and_insert_csv iso_date_in CSV_FILE_TO_PROCESS 1000 ws1 =
      (inr AttributeError, ws2) /\
    main_block iso_date_in iso_date_out ws = (fst rws, snd rws)) /\
   w_ops (snd rws) = w_ops ws2 ++
     (if exn_eq_dec AttributeError OperationalError then [] else [OpRollback])
     ++ [OpClose] /\
   w_out (snd rws) = w_out ws2 ++
     [if exn_eq_dec AttributeError OperationalError then LConnError AttributeError
      else LRollingBack AttributeError; LClosed] /\
   w_committed (snd rws) = w_committed ws1 /\ w_tbl (snd rws) = w_committed ws1 /\
   w_conn (snd rws) = false).
Proof.
  intros wm wm0 wm1 rwm w w0 w1 wb w2 rw ws ws0 ws1 ws2 rws.
  destruct (load_failures_reach_main_handler iso_date_in iso_date_out)
    as (_ & Hprop & _ & Hmiss & Hfail).
  assert (A0 : (db_connect;;; print LConnected) wm = (inl tt, wm0)) by (vm_compute; reflexivity).
  assert (A1 : setup_database wm0 = (inl tt, wm1)) by (vm_compute; reflexivity).
  assert (A2 : w_fs wm1 CSV_FILE_TO_PROCESS = None) by (vm_compute; reflexivity).
  assert (A3 : w_drop wm1 = None) by (vm_compute; reflexivity).
  assert (A4 : main_block iso_date_in iso_date_out wm = (fst rwm, snd rwm))
    by exact (surjective_pairing _).
  assert (P0 : load_body iso_date_in CSV_FILE_TO_PROCESS 1000
      (set_out (w_out w1 ++ [LStart CSV_FILE_TO_PROCESS]) w1) = (inr OperationalError, wb))
    by (vm_compute; reflexivity).
  assert (P1 : OperationalError <> FileNotFoundError) by discriminate.
  assert (B0 : (db_connect;;; print LConnected) w = (inl tt, w0)) by (vm_compute; reflexivity).
  assert (B1 : setup_database w0 = (inl tt, w1)) by (vm_compute; reflexivity).
  assert (B2 : process_and_insert_csv iso_date_in CSV_FILE_TO_PROCESS 1000 w1 =
                 (inr OperationalError, w2)) by (vm_compute; reflexivity).
  assert (B3 : main_block iso_date_in iso_date_out w = (fst rw, snd rw))
    by exact (surjective_pairing _).
  assert (S0 : (db_connect;;; print LConnected) ws = (inl tt, ws0)) by (vm_compute; reflexivity).
  assert (S1 : setup_database ws0 = (inl tt, ws1)) by (vm_compute; reflexivity).
  assert (S2 : process_and_insert_csv iso_date_in CSV_FILE_TO_PROCESS 1000 ws1 =
                 (inr AttributeError, ws2)) by (vm_compute; reflexivity).
  assert (S3 : main_block iso_date_in iso_date_out ws = (fst rws, snd rws))
    by exact (surjective_pairing _).
  refine (conj _ (conj _ (conj _ _))).
  - refine (conj _ _); [repeat (refine (conj _ _); [assumption|]); assumption|].
    exact (Hmiss _ _ _ _ _ A0 A1 A2 A3 A4).
  - refine (conj (conj P0 P1) _). exact (Hprop _ _ _ _ _ P0 P1).
  - refine (conj _ _); [repeat (refine (conj _ _); [assumption|]); assumption|].
    exact (Hfail _ _ _ _ _ _ _ B0 B1 B2 B3).
  - refine (conj _ _); [repeat (refine (conj _ _); [assumption|]); assumption|].
    exact (Hfail _ _ _ _ _ _ _ S0 S1 S2 S3).
Defined.

(* ================================================================== *)
(** * Further properties of the script *)

(** ** The table after a load *)

Lemma upsert_keys_nodup t nid r t' :
  List.NoDup (map key t) -> upsert t nid r = Some t' -> List.NoDup (map key t').
Proof.
  intros Hn U. destruct (upsert_cases _ _ _ _ U) as [(E & ->)|(E & _ & ->)].
  - rewrite map_map. erewrite map_ext; [exact Hn|]. intros x. apply update_row_key.
  - rewrite map_app. cbn [map]. apply List.NoDup_app; [exact Hn| |].
    + constructor; [intros []|constructor].
    + intros k Hk [Hk'|[]]. subst k. apply in_map_iff in Hk as (x & Ex & Hx).
      assert (existsb (same_key r) t = true) as E'
        by (apply existsb_exists; exists x; split; [exact Hx|];
            rewrite same_key_eq, Ex; apply String.eqb_refl).
      congruence.
Qed.

Lemma upsert_all_keys_nodup t s cs t' :
  List.NoDup (map key t) -> upsert_all t s cs = Some t' -> List.NoDup (map key t').
Proof.
  revert t s. induction cs as [|r cs IH]; intros t s Hn U.
  - injection U as <-. exact Hn.
  - apply upsert_all_cons in U as (t1 & U1 & U).
    exact (IH t1 (S s) (upsert_keys_nodup _ _ _ _ Hn U1) U).
Qed.

Lemma upsert_keeps t nid r t' x :
  upsert t nid r = Some t' -> In x t ->
  exists x', In x' t' /\ s_id x' = s_id x /\ key x' = key x.
Proof.
  intros U Hx. destruct (upsert_cases _ _ _ _ U) as [(_ & ->)|(_ & _ & ->)].
  - exists (update_row r x). split; [apply in_map, Hx|].
    split; [apply update_row_id|apply update_row_key].
  - exists x. split; [apply in_or_app; left; exact Hx|]. auto.
Qed.

Lemma upsert_all_keeps t s cs t' x :
  upsert_all t s cs = Some t' -> In x t ->
  exists x', In x' t' /\ s_id x' = s_id x /\ key x' = key x.
Proof.
  revert t s x. induction cs as [|r cs IH]; intros t s x U Hx.
  - injection U as <-. eauto.
  - apply upsert_all_cons in U as (t1 & U1 & U).
    destruct (upsert_keeps _ _ _ _ _ U1 Hx) as (x1 & H1 & I1 & K1).
    destruct (IH _ _ _ U H1) as (x2 & H2 & I2 & K2).
    exists x2. split; [exact H2|]. split; congruence.
Qed.

Lemma apply_tuples_none_table date_in s ts st' :
  apply_tuples date_in (None, s) ts = Some st' -> ts = [].
Proof. destruct ts; [reflexivity|discriminate]. Qed.

Lemma to_crow_has_id date_in t r : to_crow date_in t = inl r -> t_customer_id t <> None.
Proof.
  intros H Hn. unfold to_crow, convert in H. rewrite Hn in H.
  cbn [varchar fmap option_fmap option_map mbind option_bind] in H.
  repeat match type of H with
  | context [mbind _ ?m] => destruct m; cbn [mbind option_bind] in H
  end.
  all: discriminate H.
Qed.

(** A load on a live link that returns normally upserts the converted kept
    rows, in order, into the table. *)
Lemma load_table date_in fname n f w w' :
  w_drop w = None -> w_fs w fname = Some f ->
  process_and_insert_csv date_in fname n w = (inl tt, w') ->
  match w_tbl w with
  | None => kept_tuples (dict_reader (f_records f)) = [] /\ w_tbl w' = None
  | Some tb =>
      exists cs tb',
        map (to_crow date_in) (kept_tuples (dict_reader (f_records f))) = map inl cs /\
        upsert_all tb (w_seq w) cs = Some tb' /\ w_tbl w' = Some tb'
  end.
Proof.
  intros Hd Hf H.
  destruct (load_tracks _ _ _ _ _ _ Hd Hf H) as (_ & _ & _ & calls & Ho & Ha).
  destruct (load_ok _ _ _ _ _ _ Hf H) as (_ & calls' & Ho' & Hc & _).
  rewrite Ho in Ho'. apply ops_calls_eq in Ho' as <-. rewrite Hc in Ha.
  destruct (w_tbl w) as [tb|].
  - apply apply_tuples_some in Ha as (cs & tb' & Hm & U & Hs). injection Hs as Ht _. eauto.
  - pose proof (apply_tuples_none_iff _ _ _ _ Ha) as [Hn _].
    apply apply_tuples_none_table in Ha. split; [exact Ha|exact (Hn eq_refl)].
Qed.

(** X1: a load on a live link into an existing table that returns normally
    stores every kept row's customer id; a stored row whose customer id
    occurs among the kept rows carries the values of the last kept row with
    that id, and every other stored row is one that was there before. *)
Theorem load_stores_last_row_per_customer date_in fname n f w w' tb :
  w_drop w = None -> w_fs w fname = Some f -> w_tbl w = Some tb ->
  process_and_insert_csv date_in fname n w = (inl tt, w') ->
  exists cs tb',
    map (to_crow date_in) (kept_tuples (dict_reader (f_records f))) = map inl cs /\
    w_tbl w' = Some tb' /\
    (forall r, In r cs -> exists x, In x tb' /\ key x = c_customer_id r) /\
    (forall x, In x tb' ->
       match lastk cs (key x) with Some r => s_row x = r | None => In x tb end).
Proof.
  intros Hd Hf Ht H. pose proof (load_table _ _ _ _ _ _ Hd Hf H) as L.
  rewrite Ht in L. destruct L as (cs & tb' & Hm & U & Ht').
  exists cs, tb'. split; [exact Hm|]. split; [exact Ht'|]. split.
  - intros r Hr. pose proof (upsert_all_covers tb (w_seq w) cs r tb' Hr U) as E.
    apply existsb_exists in E as (x & Hx & Ex). exists x. split; [exact Hx|].
    rewrite same_key_eq in Ex. apply String.eqb_eq in Ex. exact Ex.
  - intros x Hx. destruct (lastk cs (key x)) as [r|] eqn:E.
    + exact (upsert_all_rows _ _ _ _ _ _ U Hx E).
    + exact (upsert_all_untouched _ _ _ _ _ U Hx E).
Qed.

(** X2: the customer ids of the table stay unique across a load that
    returns normally on a live link. *)
Theorem load_keeps_customer_ids_unique date_in fname n f w w' tb :
  w_drop w = None -> w_fs w fname = Some f -> w_tbl w = Some tb ->
  List.NoDup (map key tb) ->
  process_and_insert_csv date_in fname n w = (inl tt, w') ->
  exists tb', w_tbl w' = Some tb' /\ List.NoDup (map key tb').
Proof.
  intros Hd Hf Ht Hn H. pose proof (load_table _ _ _ _ _ _ Hd Hf H) as L.
  rewrite Ht in L. destruct L as (cs & tb' & _ & U & Ht').
  exists tb'. split; [exact Ht'|]. exact (upsert_all_keys_nodup _ _ _ _ Hn U).
Qed.

(** X3: a load that returns normally on a live link removes no stored row
    and changes neither the id nor the customer id of any: every row stored
    before has a row after it with the same id and customer id. *)
Theorem load_keeps_stored_rows date_in fname n f w w' tb :
  w_drop w = None -> w_fs w fname = Some f -> w_tbl w = Some tb ->
  process_and_insert_csv date_in fname n w = (inl tt, w') ->
  exists tb', w_tbl w' = Some tb' /\
    forall x, In x tb -> exists x', In x' tb' /\ s_id x' = s_id x /\ key x' = key x.
Proof.
  intros Hd Hf Ht H. pose proof (load_table _ _ _ _ _ _ Hd Hf H) as L.
  rewrite Ht in L. destruct L as (cs & tb' & _ & U & Ht').
  exists tb'. split; [exact Ht'|]. intros x Hx. exact (upsert_all_keeps _ _ _ _ _ U Hx).
Qed.

(** X4: every row that a load returning normally on a live link has kept
    had a Customer Id value ([customer_id] is [NOT NULL]). *)
Theorem load_kept_rows_have_customer_id date_in fname n f w w' :
  w_drop w = None -> w_fs w fname = Some f ->
  process_and_insert_csv date_in fname n w = (inl tt, w') ->
  Forall (fun t => t_customer_id t <> None) (kept_tuples (dict_reader (f_records f))).
Proof.
  intros Hd Hf H. pose proof (load_table _ _ _ _ _ _ Hd Hf H) as L.
  destruct (w_tbl w) as [tb|].
  - destruct L as (cs & tb' & Hm & _). apply List.Forall_forall. intros t Ht.
    apply (in_map (to_crow date_in)) in Ht. rewrite Hm in Ht.
    apply in_map_iff in Ht as (r & Er & _). exact (to_crow_has_id _ _ _ (eq_sym Er)).
  - destruct L as (-> & _). constructor.
Qed.

Lemma load_stores_last_row_per_customer_witness :
  let w := ready_world ex_file in
  let w' := snd (process_and_insert_csv iso_date_in CSV_FILE_TO_PROCESS 1000 w) in
  (w_drop w = None /\ w_fs w CSV_FILE_TO_PROCESS = Some ex_file /\ w_tbl w = Some [] /\
   process_and_insert_csv iso_date_in CSV_FILE_TO_PROCESS 1000 w = (inl tt, w')) /\
  exists cs tb',
    map (to_crow iso_date_in) (kept_tuples (dict_reader (f_records ex_file))) = map inl cs /\
    w_tbl w' = Some tb' /\
    (forall r, In r cs -> exists x, In x tb' /\ key x = c_customer_id r) /\
    (forall x, In x tb' ->
       match lastk cs (key x) with Some r => s_row x = r | None => In x [] end).
Proof.
  intros w w'.
  assert (A0 : w_drop w = None) by reflexivity.
  assert (A1 : w_fs w CSV_FILE_TO_PROCESS = Some ex_file) by reflexivity.
  assert (A2 : w_tbl w = Some []) by reflexivity.
  assert (A3 : process_and_insert_csv iso_date_in CSV_FILE_TO_PROCESS 1000 w = (inl tt, w'))
    by (vm_compute; reflexivity).
  refine (conj (conj A0 (conj A1 (conj A2 A3))) _).
  exact (load_stores_last_row_per_customer _ _ _ _ _ _ _ A0 A1 A2 A3).
Defined.

(** X2 on a table holding the two rows of [pair_file], loading [dup_file],
    whose two kept rows share the customer id ["1"] already stored. *)
Lemma load_keeps_customer_ids_unique_witness :
  let w := reload_world dup_file
             (snd (process_and_insert_csv iso_date_in CSV_FILE_TO_PROCESS 1000
                     (ready_world pair_file))) in
  let tb := match w_tbl w with Some t => t | None => [] end in
  let w' := snd (process_and_insert_csv iso_date_in CSV_FILE_TO_PROCESS 1000 w) in
  (w_drop w = None /\ w_fs w CSV_FILE_TO_PROCESS = Some dup_file /\ w_tbl w = Some tb /\
   List.NoDup (map key tb) /\
   process_and_insert_csv iso_date_in CSV_FILE_TO_PROCESS 1000 w = (inl tt, w')) /\
  length tb = 2 /\
  exists tb', w_tbl w' = Some tb' /\ List.NoDup (map key tb').
Proof.
  intros w tb w'.
  assert (A0 : w_drop w = None) by reflexivity.
  assert (A1 : w_fs w CSV_FILE_TO_PROCESS = Some dup_file) by reflexivity.
  assert (A2 : w_tbl w = Some tb) by (vm_compute; reflexivity).
  assert (A3 : List.NoDup (map key tb))
    by (vm_compute; repeat constructor; intros Hc; repeat destruct Hc as [Hc|Hc];
        try discriminate Hc; exact Hc).
  assert (A4 : process_and_insert_csv iso_date_in CSV_FILE_TO_PROCESS 1000 w = (inl tt, w'))
    by (vm_compute; reflexivity).
  assert (A5 : length tb = 2) by (vm_compute; reflexivity).
  refine (conj (conj A0 (conj A1 (conj A2 (conj A3 A4)))) (conj A5 _)).
  exact (load_keeps_customer_ids_unique _ _ _ _ _ _ _ A0 A1 A2 A3 A4).
Defined.

(** X3 on the same non-empty table. *)
Lemma load_keeps_stored_rows_witness :
  let w := reload_world dup_file
             (snd (process_and_insert_csv iso_date_in CSV_FILE_TO_PROCESS 1000
                     (ready_world pair_file))) in
  let tb := match w_tbl w with Some t => t | None => [] end in
  let w' := snd (process_and_insert_csv iso_date_in CSV_FILE_TO_PROCESS 1000 w) in
  (w_drop w = None /\ w_fs w CSV_FILE_TO_PROCESS = Some dup_file /\ w_tbl w = Some tb /\
   process_and_insert_csv iso_date_in CSV_FILE_TO_PROCESS 1000 w = (inl tt, w')) /\
  length tb = 2 /\
  exists tb', w_tbl w' = Some tb' /\
    forall x, In x tb -> exists x', In x' tb' /\ s_id x' = s_id x /\ key x' = key x.
Proof.
  intros w tb w'.
  assert (A0 : w_drop w = None) by reflexivity.
  assert (A1 : w_fs w CSV_FILE_TO_PROCESS = Some dup_file) by reflexivity.
  assert (A2 : w_tbl w = Some tb) by (vm_compute; reflexivity).
  assert (A3 : process_and_insert_csv iso_date_in CSV_FILE_TO_PROCESS 1000 w = (inl tt, w'))
    by (vm_compute; reflexivity).
  assert (A5 : length tb = 2) by (vm_compute; reflexivity).
  refine (conj (conj A0 (conj A1 (conj A2 A3))) (conj A5 _)).
  exact (load_keeps_stored_rows _ _ _ _ _ _ _ A0 A1 A2 A3).
Defined.

Lemma load_kept_rows_have_customer_id_witness :
  let w := ready_world ex_file in
  let w' := snd (process_and_insert_csv iso_date_in CSV_FILE_TO_PROCESS 1000 w) in
  (w_drop w = None /\ w_fs w CSV_FILE_TO_PROCESS = Some ex_file /\
   process_and_insert_csv iso_date_in CSV_FILE_TO_PROCESS 1000 w = (inl tt, w')) /\
  Forall (fun t => t_customer_id t <> None) (kept_tuples (dict_reader (f_records ex_file))).
Proof.
  intros w w'.
  assert (A0 : w_drop w = None) by reflexivity.
  assert (A1 : w_fs w CSV_FILE_TO_PROCESS = Some ex_file) by reflexivity.
  assert (A3 : process_and_insert_csv iso_date_in CSV_FILE_TO_PROCESS 1000 w = (inl tt, w'))
    by (vm_compute; reflexivity).
  refine (conj (conj A0 (conj A1 A3)) _).
  exact (load_kept_rows_have_customer_id _ _ _ _ _ _ A0 A1 A3).
Defined.

(** ** The filter, the batch size and the calls of the loader *)

Lemma ro_executemany_na date_in b :
  raises_only (fun e => e <> AttributeError) (executemany date_in b).
Proof.
  unfold executemany. ro_step; [ro_step|]. ro_step; [ro_step|].
  induction b as [|t b IH]; simpl.
  - ro_step.
  - ro_step; [|exact IH]. unfold exec_upsert.
    repeat (ro_step || ro_match).
Qed.

Lemma name_test_cases f l w :
  ((f = None \/ exists s, f = Some s /\ String.prefix "A"%string s = true /\ l = None) /\
   name_test f l w = (inr AttributeError, w)) \/
  (~ (f = None \/ exists s, f = Some s /\ String.prefix "A"%string s = true /\ l = None) /\
   name_test f l w = (inl (name_ok f l), w)).
Proof.
  unfold name_test, name_ok, py_startswith, bind, raise, ret.
  destruct f as [s|]; [|left; split; [left; reflexivity|reflexivity]].
  cbn [py_str_or_empty]. destruct (String.prefix "A"%string s) eqn:Ea.
  - destruct l as [s'|].
    + right. split; [|reflexivity]. intros [E|(s0 & E & _ & E')]; discriminate.
    + left. split; [right; eauto|reflexivity].
  - right. split; [|reflexivity].
    intros [E|(s0 & E & E1 & _)]; [discriminate|injection E as <-; congruence].
Qed.

Section Loader2.
Variable date_in : string -> option N.

Lemma process_row_nonpos n st row w st' w' :
  (n <= 0)%Z -> batch st = [] -> process_row date_in n st row w = (inl st', w') ->
  batch st' = [] /\ w_ops w' = w_ops w ++ [OpExecMany (kept_tuples [row])].
Proof.
  unfold process_row. intros Hn Hb H. inv_bind H. apply name_test_ok in Hm as [-> ->].
  fold (first_name_of row) (last_name_of row) in *. rewrite Hb in H.
  unfold kept_tuples, passes. cbn [List.filter].
  assert (Hle : forall b : list tuple, (n <=? Z.of_nat (length b))%Z = true)
    by (intros; apply Z.leb_le; lia).
  destruct (name_ok (first_name_of row) (last_name_of row));
    cbn [List.filter map app] in H |- *; rewrite Hle in H;
    inv_bind H; inv_bind H; unfold ret in H; injection H as <- <-;
    apply print_inv in Hm0 as ->; apply executemany_ops in Hm;
    cbn [w_ops set_out batch]; rewrite Hm; split; reflexivity.
Qed.

Lemma insert_rows_nonpos n rows st w st' w' :
  (n <= 0)%Z -> batch st = [] -> insert_rows date_in n rows st w = (inl st', w') ->
  batch st' = [] /\ w_ops w' = w_ops w ++ map (fun r => OpExecMany (kept_tuples [r])) rows.
Proof.
  intros Hn. revert st w. induction rows as [|row rows IH]; intros st w Hb H.
  - cbn in H. injection H as <- <-. rewrite app_nil_r. auto.
  - cbn [insert_rows] in H. inv_bind H.
    destruct (process_row_nonpos _ _ _ _ _ _ Hn Hb Hm) as [B1 O1].
    destruct (IH _ _ B1 H) as [B2 O2]. split; [exact B2|].
    rewrite O2, O1, <- app_assoc. reflexivity.
Qed.

(** A run of the loader on a present file that returns normally: the rows
    are processed, then the last batch, if any, is sent. *)
Lemma load_decomp fname n f w w' :
  w_fs w fname = Some f ->
  process_and_insert_csv date_in fname n w = (inl tt, w') ->
  exists st w2,
    insert_rows date_in n (dict_reader (f_records f)) (mkL [] 0 0)
      (set_out (w_out w ++ [LStart fname]) w) = (inl st, w2) /\
    w_ops w' = w_ops w2 ++ match batch st with [] => [] | b => [OpExecMany b] end.
Proof.
  intros Hf H. unfold process_and_insert_csv in H. inv_bind H.
  apply print_inv in Hm as ->. unfold try_except in H.
  set (w1 := set_out _ w) in H.
  assert (Hf1 : w_fs w1 fname = Some f) by exact Hf.
  match type of H with
  | (match ?x with _ => _ end) = _ => destruct x as [[u|e] w2] eqn:Hb
  end.
  - injection H as _ <-. inv_bind Hb. rewrite (open_file_some _ _ _ Hf1) in Hm.
    injection Hm as <- <-. inv_bind Hb. exists a0, w0. split; [exact Hm|].
    inv_bind Hb. destruct (f_read_error f); [discriminate|].
    unfold ret in Hm0. injection Hm0 as _ <-.
    inv_bind Hb. inv_bind Hb. inv_bind Hb.
    apply print_inv in Hm1 as ->. apply print_inv in Hm2 as ->.
    apply print_inv in Hb as ->. cbn [w_ops set_out].
    destruct (batch a0) as [|t b].
    + unfold ret in Hm0. injection Hm0 as _ <-. rewrite app_nil_r. reflexivity.
    + apply bind_inl in Hm0 as (u1 & w5 & Hex & Hm0).
      apply print_inv in Hm0 as ->. apply executemany_ops in Hex. exact Hex.
  - exfalso. destruct e; cbv beta iota in H;
      try (inv_bind H; unfold raise in H; discriminate H).
    apply bind_inr in Hb as [Hb|(f' & w3 & Hm & Hb)].
    + rewrite (open_file_some _ _ _ Hf1) in Hb. discriminate.
    + match type of Hb with
      | ?m w3 = _ => assert (Hro : raises_only not_fnf m)
      end.
      { repeat (apply ro_insert_rows || apply ro_executemany || ro_step
                || match goal with
                   | |- raises_only _ (if ?b then _ else _) => destruct b
                   | |- raises_only _ (match ?b with _ => _ end) => destruct b
                   end). }
      exact (Hro _ _ _ Hb eq_refl).
Qed.

End Loader2.

#[export] Instance only_execmany_pre : WPreorder only_execmany.
Proof.
  split.
  - intros w. exists []. rewrite app_nil_r. reflexivity.
  - intros w1 w2 w3 (c1 & E1) (c2 & E2). exists (c1 ++ c2).
    rewrite E2, E1, map_app, app_assoc. reflexivity.
Qed.

Ltac oe_step :=
  first [ apply pr_ret | apply pr_raise | apply pr_gets | apply pr_cursor_ok
        | apply pr_link_ok; intros ?w; exists []; cbn [map]; rewrite app_nil_r; reflexivity
        | apply pr_nextval; intros ?w ?s; exists []; cbn [map]; rewrite app_nil_r; reflexivity
        | apply pr_consume; intros ?w; [intros ?d|]; exists []; cbn [map]; rewrite app_nil_r;
          reflexivity
        | apply pr_bind; [|intros ?]
        | apply pr_try_except; [|intros ?]
        | apply pr_modify; intros ?w; exists []; cbn [map]; rewrite app_nil_r; reflexivity
        | match goal with
          | |- preserves _ (if ?b then _ else _) => destruct b
          | |- preserves _ (match ?b with _ => _ end) => destruct b
          end ].

Lemma oe_executemany date_in b : preserves only_execmany (executemany date_in b).
Proof.
  unfold executemany, log_op. apply pr_bind.
  - apply pr_modify. intros w. exists [b]. reflexivity.
  - intros _. apply pr_bind; [oe_step|intros _].
    induction b as [|t b IH]; [apply pr_ret|].
    apply pr_bind; [|intros _; exact IH]. unfold exec_upsert. repeat oe_step.
Qed.

Lemma oe_insert_rows date_in n rows st :
  preserves only_execmany (insert_rows date_in n rows st).
Proof.
  revert st. induction rows as [|row rows IH]; intros st; simpl; [apply pr_ret|].
  apply pr_bind; [|intros ?; apply IH]. unfold process_row, name_test, py_startswith, print.
  cbv zeta. repeat (apply oe_executemany || oe_step).
Qed.

Lemma oe_load date_in fname n :
  preserves only_execmany (process_and_insert_csv date_in fname n).
Proof.
  unfold process_and_insert_csv, load_body, load_handler, open_file, print.
  repeat (apply oe_insert_rows || apply oe_executemany || oe_step).
  intros w r w' H. destruct (w_fs w fname); injection H as _ <-; apply wp_refl.
Qed.

(** X6: processing one row raises [AttributeError] exactly when its First
    Name value is [None], or starts with 'A' while its Last Name value is
    [None]: the [and] of line 107 does not look at the last name of a row
    whose first name does not start with 'A'. *)
Theorem row_filter_raises_attribute_error date_in n st row w :
  fst (process_row date_in n st row w) = inr AttributeError <->
  (first_name_of row = None \/
   exists s, first_name_of row = Some s /\ String.prefix "A"%string s = true /\
             last_name_of row = None).
Proof.
  unfold process_row. cbv zeta. unfold bind at 1.
  change (row_get row "First Name"%string (Some ""%string)) with (first_name_of row).
  change (row_get row "Last Name"%string (Some ""%string)) with (last_name_of row).
  destruct (name_test_cases (first_name_of row) (last_name_of row) w) as [[Hc E]|[Hc E]];
    rewrite E; cbv beta iota.
  - cbn [fst]. split; [intros _; exact Hc|reflexivity].
  - split; [|intros Hc'; contradiction].
    match goal with
    | |- fst (?m w) = _ -> _ =>
        assert (Hro : raises_only (fun e => e <> AttributeError) m);
        [|destruct (m w) as [[a|e] w'] eqn:Em]
    end.
    + match goal with |- raises_only _ (if ?b then _ else _) => destruct b end; [|ro_step].
      ro_step; [apply ro_executemany_na|]. repeat ro_step.
    + cbn [fst]. discriminate.
    + cbn [fst]. intros Hr. injection Hr as ->. exfalso. exact (Hro _ _ _ Em eq_refl).
Qed.

(** X7: with a batch size of zero or less, [len(batch) >= batch_size] holds
    after every row, so a load that returns normally calls [executemany]
    once per data row, with that row's tuple when it passes the filter and
    with an empty list when it does not, and makes no final call. *)
Theorem nonpositive_batch_size_one_call_per_row date_in fname n f w w' :
  (n <= 0)%Z -> w_fs w fname = Some f ->
  process_and_insert_csv date_in fname n w = (inl tt, w') ->
  w_ops w' =
  w_ops w ++ map (fun r => OpExecMany (kept_tuples [r])) (dict_reader (f_records f)).
Proof.
  intros Hn Hf H. destruct (load_decomp _ _ _ _ _ _ Hf H) as (st & w2 & Hi & Ho).
  destruct (insert_rows_nonpos _ _ _ _ _ _ _ Hn (eq_refl : batch (mkL [] 0 0) = []) Hi) as [Hb O2].
  rewrite Ho, Hb, O2, app_nil_r. reflexivity.
Qed.

(** X8: a source with no data row (empty, header only, or blank lines
    only) that reads without error makes no database call, whatever the
    batch size and the state of the database: the loader returns normally
    and prints both counters as 0. *)
Theorem empty_source_no_database_call date_in fname n f w :
  w_fs w fname = Some f -> f_read_error f = false -> dict_reader (f_records f) = [] ->
  process_and_insert_csv date_in fname n w =
  (inl tt, set_out (w_out w ++ [LStart fname; LComplete; LProcessed 0; LInserted 0]) w).
Proof.
  intros Hf Hre Hr.
  unfold process_and_insert_csv, load_body, try_except, open_file, print, bind, ret,
    raise, modify.
  cbn -[dict_reader]. rewrite Hf. cbn -[dict_reader]. rewrite Hr. cbn -[dict_reader].
  rewrite Hre. cbn -[dict_reader]. rewrite <- !app_assoc. reflexivity.
Qed.

(** X9: whatever its outcome, the loader's only database calls are
    [executemany] calls: it never commits, rolls back or closes, and it
    leaves the connection and the committed table as they were. *)
Theorem loader_only_calls_executemany date_in fname n w r w' :
  process_and_insert_csv date_in fname n w = (r, w') ->
  (exists calls, w_ops w' = w_ops w ++ map OpExecMany calls) /\
  w_conn w' = w_conn w /\ w_committed w' = w_committed w.
Proof.
  intros H. destruct (km_load date_in fname n w r w' H) as [C K].
  exact (conj (oe_load date_in fname n w r w' H) (conj C K)).
Qed.

Lemma nonpositive_batch_size_one_call_per_row_witness :
  let w := ready_world ex_file in
  let w' := snd (process_and_insert_csv iso_date_in CSV_FILE_TO_PROCESS 0 w) in
  ((0 <= 0)%Z /\ w_fs w CSV_FILE_TO_PROCESS = Some ex_file /\
   process_and_insert_csv iso_date_in CSV_FILE_TO_PROCESS 0 w = (inl tt, w')) /\
  w_ops w' =
  w_ops w ++ map (fun r => OpExecMany (kept_tuples [r])) (dict_reader (f_records ex_file)).
Proof.
  intros w w'.
  assert (A0 : (0 <= 0)%Z) by lia.
  assert (A1 : w_fs w CSV_FILE_TO_PROCESS = Some ex_file) by reflexivity.
  assert (A2 : process_and_insert_csv iso_date_in CSV_FILE_TO_PROCESS 0 w = (inl tt, w'))
    by (vm_compute; reflexivity).
  refine (conj (conj A0 (conj A1 A2)) _).
  exact (nonpositive_batch_size_one_call_per_row _ _ _ _ _ _ A0 A1 A2).
Defined.

Lemma empty_source_no_database_call_witness :
  let f := mkFile [CSV_HEADERS] false in
  let w := mkWorld (fun n => if String.eqb n CSV_FILE_TO_PROCESS then Some f else None)
             false None false None None 0 [] [] false in
  (w_fs w CSV_FILE_TO_PROCESS = Some f /\ f_read_error f = false /\
   dict_reader (f_records f) = []) /\
  process_and_insert_csv iso_date_in CSV_FILE_TO_PROCESS 1000 w =
  (inl tt, set_out (w_out w ++ [LStart CSV_FILE_TO_PROCESS; LComplete; LProcessed 0;
                                LInserted 0]) w).
Proof.
  intros f w.
  assert (A0 : w_fs w CSV_FILE_TO_PROCESS = Some f) by reflexivity.
  assert (A1 : f_read_error f = false) by reflexivity.
  assert (A2 : dict_reader (f_records f) = []) by (vm_compute; reflexivity).
  refine (conj (conj A0 (conj A1 A2)) _).
  exact (empty_source_no_database_call _ _ _ _ _ A0 A1 A2).
Defined.

Lemma loader_only_calls_executemany_witness :
  let w := mkWorld (fun n => if String.eqb n CSV_FILE_TO_PROCESS then Some pair_file
                             else None)
             true (Some 1) true (Some []) (Some []) 0 [] [] false in
  let rw := process_and_insert_csv iso_date_in CSV_FILE_TO_PROCESS 1 w in
  process_and_insert_csv iso_date_in CSV_FILE_TO_PROCESS 1 w = (fst rw, snd rw) /\
  (exists calls, w_ops (snd rw) = w_ops w ++ map OpExecMany calls) /\
  w_conn (snd rw) = w_conn w /\ w_committed (snd rw) = w_committed w.
Proof.
  intros w rw.
  assert (A0 : process_and_insert_csv iso_date_in CSV_FILE_TO_PROCESS 1 w = (fst rw, snd rw))
    by exact (surjective_pairing _).
  exact (conj A0 (loader_only_calls_executemany _ _ _ _ _ _ A0)).
Defined.

(** ** Setup, report and main block *)

#[export] Instance keeps_data_pre : WPreorder keeps_data.
Proof.
  split.
  - intros w. unfold keeps_data. auto.
  - intros w1 w2 w3 (A1 & B1 & C1) (A2 & B2 & C2). unfold keeps_data.
    rewrite A2, B2, C2. auto.
Qed.

#[export] Instance keeps_conn_pre : WPreorder keeps_conn.
Proof.
  split.
  - intros w. reflexivity.
  - intros w1 w2 w3 A B. unfold keeps_conn in *. congruence.
Qed.

Lemma kn_of_kc {A} (m : M A) : preserves keeps_conn_out m -> preserves keeps_conn m.
Proof. intros Hm w r w' H. exact (proj1 (Hm w r w' H)). Qed.

Ltac kd_close := intros ?w; unfold keeps_data; cbn; auto.

Ltac kd_step :=
  first [ apply pr_ret | apply pr_raise | apply pr_gets | apply pr_cursor_ok
        | apply pr_link_ok; kd_close
        | apply pr_nextval; intros ?w ?s; unfold keeps_data; cbn; auto
        | apply pr_consume; intros ?w; [intros ?d|]; unfold keeps_data; cbn; auto
        | apply pr_bind; [|intros ?]
        | apply pr_try_except; [|intros ?]
        | apply pr_modify; kd_close
        | match goal with
          | |- preserves _ (if ?b then _ else _) => destruct b
          | |- preserves _ (match ?b with _ => _ end) => destruct b
          end ].

Lemma kd_print_all ls : preserves keeps_data (print_all ls).
Proof.
  induction ls as [|l ls IH]; simpl; [apply pr_ret|].
  apply pr_bind; [|intros _; exact IH]. unfold print. kd_step.
Qed.

Lemma kd_get_filtered date_out : preserves keeps_data (get_filtered_customers date_out).
Proof.
  unfold get_filtered_customers, db_select, print, log_op.
  repeat (apply kd_print_all || kd_step).
Qed.

Ltac kn_step :=
  match goal with
  | |- preserves _ setup_database => apply kn_of_kc, kc_setup
  | |- preserves _ (process_and_insert_csv _ _ _) => apply kn_of_kc, kc_load
  | |- preserves _ db_commit => apply kn_of_kc, kc_commit
  | |- preserves _ (get_filtered_customers _) => apply kn_of_kc, kc_get_filtered
  | |- preserves _ (bind _ _) => apply pr_bind; [|intros ?]
  | |- preserves _ (ret _) => apply pr_ret
  | |- preserves _ (raise _) => apply pr_raise
  | |- preserves _ (gets _) => apply pr_gets
  | |- preserves _ link_ok => apply pr_link_ok; intros ?w; reflexivity
  | |- preserves _ (modify _) => apply pr_modify; intros ?w; reflexivity
  | |- preserves _ (if ?b then _ else _) => destruct b
  end.

Lemma connect_up w :
  w_server_up w = true ->
  db_connect w =
  (inl tt, set_closed false
             (set_tx true (w_tbl w) (w_committed w) (set_ops (w_ops w ++ [OpConnect]) w))).
Proof. intros Hu. unfold db_connect, bind, gets, log_op, modify. cbn. rewrite Hu. reflexivity. Qed.

(** The [finally] clause of the main block. *)
Lemma main_finally_eq (A : Type) (m : M A) w r1 w1 :
  m w = (r1, w1) ->
  try_finally m (c <- gets w_conn;; if c then db_close;;; print LClosed else ret tt) w =
  (r1, if w_conn w1
       then set_out (w_out w1 ++ [LClosed])
              (set_closed true (set_tx false (w_committed w1) (w_committed w1)
                 (set_ops (w_ops w1 ++ [OpClose]) w1)))
       else w1).
Proof.
  intros E. unfold try_finally. rewrite E.
  unfold gets, bind, db_close, print, log_op, modify, ret.
  destruct (w_conn w1); reflexivity.
Qed.

(** With the server up, the connection is open when the [try] block of the
    main block, and any handler it ran, are done. *)
Lemma main_try_conn date_in date_out w :
  w_server_up w = true ->
  forall r1 w1,
  try_except
    (db_connect;;; print LConnected;;;
     setup_database;;;
     process_and_insert_csv date_in CSV_FILE_TO_PROCESS 1000;;;
     db_commit;;; print LCommitted;;;
     get_filtered_customers date_out)
    (fun e => if exn_eq_dec e OperationalError then print (LConnError e)
              else print (LRollingBack e);;;
                   c <- gets w_conn;; if c then db_rollback else ret tt) w = (r1, w1) ->
  w_conn w1 = true.
Proof.
  intros Hu r1 w1 E. unfold try_except in E. unfold bind at 1 in E.
  rewrite (connect_up w Hu) in E. cbv beta iota in E.
  set (w0 := set_closed false _) in E.
  match type of E with
  | match ?m w0 with _ => _ end = _ =>
      assert (P : preserves keeps_conn m) by (unfold print; repeat kn_step);
      destruct (m w0) as [[a|e] w2] eqn:Em
  end.
  - injection E as _ <-. exact (P _ _ _ Em).
  - cbv beta in E.
    match type of E with
    | ?h w2 = _ => assert (Q : preserves keeps_conn h)
    end.
    { unfold print, db_rollback, log_op. repeat kn_step. }
    rewrite (Q _ _ _ E). exact (P _ _ _ Em).
Qed.

(** X10: when [setup_database] returns normally, it has issued CREATE TABLE
    and then a commit, and printed its success line; the table is the one
    that existed, or a new empty one, and it is now committed. *)
Theorem setup_database_success w u w' :
  setup_database w = (inl u, w') ->
  w_tbl w' = Some (match w_tbl w with Some t => t | None => [] end) /\
  w_committed w' = w_tbl w' /\
  w_ops w' = w_ops w ++ [OpExec StCreate; OpCommit] /\
  w_out w' = w_out w ++ [LSetupOk].
Proof.
  unfold setup_database, try_except, db_create, db_commit, db_rollback, print, log_op,
    bind, consume, link_ok, modify, raise.
  destruct w as [fs up d c t cm sq ops out cl]. destruct cl; [|destruct d as [[|[|k]]|]]; cbn;
    intros H; try discriminate H; injection H as _ <-; cbn; destruct t;
    rewrite <- ?app_assoc; auto.
Qed.

(** X11: [setup_database] fails only when the connection is already closed,
    or when the link to the server is lost during CREATE TABLE or its
    commit, which closes it.  Its handler's rollback then fails on the
    closed connection, so the error line of the handler is never printed,
    and the error that leaves [setup_database] is that of the rollback, an
    [InterfaceError]; the connection is left marked closed, and the
    committed table, the session flag and the output are as they were. *)
Theorem setup_database_failure w e w' :
  setup_database w = (inr e, w') ->
  e = InterfaceError /\ w_closed w' = true /\
  w_committed w' = w_committed w /\ w_conn w' = w_conn w /\
  w_out w' = w_out w /\
  (w_ops w' = w_ops w ++ [OpExec StCreate; OpRollback] \/
   w_ops w' = w_ops w ++ [OpExec StCreate; OpCommit; OpRollback]).
Proof.
  unfold setup_database, try_except, db_create, db_commit, db_rollback, print, log_op,
    bind, consume, link_ok, modify, raise.
  destruct w as [fs up d c t cm sq ops out cl]. destruct cl; [|destruct d as [[|[|k]]|]];
    cbn; intros H; try discriminate H; injection H as <- <-; cbn; rewrite <- ?app_assoc;
    auto 10.
Qed.

(** X12: the report reader never changes the data: the connection, the
    table seen by the transaction and the committed table are as they
    were, it always returns normally, and its only database call is the
    one SELECT. *)
Theorem report_changes_no_data date_out w :
  fst (get_filtered_customers date_out w) = inl tt /\
  keeps_data w (snd (get_filtered_customers date_out w)) /\
  w_ops (snd (get_filtered_customers date_out w)) = w_ops w ++ [OpExec StSelect].
Proof.
  destruct (get_filtered_run date_out w) as (w' & E & O). rewrite E. cbn [fst snd].
  exact (conj eq_refl (conj (kd_get_filtered date_out w _ _ E) O)).
Qed.

(** X13: when the server cannot be reached, the main block returns
    normally after the one connection attempt: it prints the connection
    error notice, does not close anything, and changes no data. *)
Theorem main_server_down date_in date_out w :
  w_server_up w = false -> w_conn w = false ->
  main_block date_in date_out w =
  (inl tt, set_out (w_out w ++ [LConnError OperationalError])
             (set_ops (w_ops w ++ [OpConnect]) w)).
Proof.
  intros Hu Hc. destruct w as [fs up d c t cm sq ops out cl]. cbn in Hu, Hc. subst.
  reflexivity.
Qed.

(** X14: the main block always ends with the connection closed.  When the
    server is up, its last database call is the close and its last line
    the closing notice, whatever happened before. *)
Theorem main_block_closes_connection date_in date_out w :
  w_conn (snd (main_block date_in date_out w)) = false /\
  (w_server_up w = true ->
   exists ops out, w_ops (snd (main_block date_in date_out w)) = ops ++ [OpClose] /\
                   w_out (snd (main_block date_in date_out w)) = out ++ [LClosed]).
Proof.
  unfold main_block.
  match goal with
  | |- context [try_finally ?m _ w] => destruct (m w) as [r1 w1] eqn:E1
  end.
  rewrite (main_finally_eq _ _ w r1 w1 E1). cbn [snd]. split.
  - destruct (w_conn w1) eqn:C; [reflexivity|exact C].
  - intros Hu. rewrite (main_try_conn date_in date_out w Hu r1 w1 E1).
    cbn. eauto.
Qed.

(** X15: an exception leaves the main block only when its generic handler,
    run for an error other than [OperationalError], cannot roll back: the
    link is lost during the rollback, which raises [OperationalError], or
    the connection was closed before, and the rollback raises
    [InterfaceError].  The connection is still closed, its close and
    closing line following the failed rollback and the rolling-back
    notice. *)
Theorem main_block_escape date_in date_out w e w' :
  main_block date_in date_out w = (inr e, w') ->
  (e = OperationalError \/ e = InterfaceError) /\ w_conn w' = false /\
  exists e0 ops out, e0 <> OperationalError /\
    w_ops w' = ops ++ [OpRollback; OpClose] /\
    w_out w' = out ++ [LRollingBack e0; LClosed].
Proof.
  unfold main_block.
  match goal with
  | |- context [try_finally ?m _ w] => destruct (m w) as [r1 w1] eqn:E1
  end.
  rewrite (main_finally_eq _ _ w r1 w1 E1). intros H. injection H as -> <-.
  unfold try_except in E1.
  match type of E1 with
  | match ?m w with _ => _ end = _ => destruct (m w) as [[a|e0] w2] eqn:Em
  end; [discriminate E1|].
  cbv beta in E1. destruct (exn_eq_dec e0 OperationalError) as [Eo|No].
  - rewrite print_eq in E1. discriminate E1.
  - unfold bind at 1 in E1. rewrite print_eq in E1. cbv beta iota in E1.
    unfold gets, bind at 1 in E1. cbn [w_conn set_out] in E1.
    destruct (w_conn w2) eqn:C2; [|discriminate E1].
    unfold db_rollback, log_op, link_ok, bind, modify in E1.
    cbn [w_drop w_closed set_ops set_out] in E1.
    destruct (w_closed w2); [|destruct (w_drop w2) as [[|k]|]]; try discriminate E1;
      injection E1 as <- <-; cbn; rewrite C2; cbn;
      (refine (conj _ (conj eq_refl _)); [auto|]);
      exists e0, (w_ops w2), (w_out w2); rewrite <- !app_assoc; auto.
Qed.

Lemma setup_database_success_witness :
  let w := mkWorld (fun _ => None) true None true None None 0 [] [] false in
  let w' := snd (setup_database w) in
  setup_database w = (inl tt, w') /\
  w_tbl w' = Some (match w_tbl w with Some t => t | None => [] end) /\
  w_committed w' = w_tbl w' /\
  w_ops w' = w_ops w ++ [OpExec StCreate; OpCommit] /\
  w_out w' = w_out w ++ [LSetupOk].
Proof.
  intros w w'.
  assert (A0 : setup_database w = (inl tt, w')) by (vm_compute; reflexivity).
  exact (conj A0 (setup_database_success _ _ _ A0)).
Defined.

(** X11 with a link that drops at the commit, and with one that drops at
    CREATE TABLE. *)
Lemma setup_database_failure_witness :
  let w := mkWorld (fun _ => None) true (Some 1) true None None 0 [] [] false in
  let w' := snd (setup_database w) in
  let v := mkWorld (fun _ => None) true (Some 0) true None None 0 [] [] false in
  let v' := snd (setup_database v) in
  (setup_database w = (inr InterfaceError, w') /\
   InterfaceError = InterfaceError /\ w_closed w' = true /\
   w_committed w' = w_committed w /\ w_conn w' = w_conn w /\ w_out w' = w_out w /\
   (w_ops w' = w_ops w ++ [OpExec StCreate; OpRollback] \/
    w_ops w' = w_ops w ++ [OpExec StCreate; OpCommit; OpRollback])) /\
  (setup_database v = (inr InterfaceError, v') /\
   InterfaceError = InterfaceError /\ w_closed v' = true /\
   w_committed v' = w_committed v /\ w_conn v' = w_conn v /\ w_out v' = w_out v /\
   (w_ops v' = w_ops v ++ [OpExec StCreate; OpRollback] \/
    w_ops v' = w_ops v ++ [OpExec StCreate; OpCommit; OpRollback])).
Proof.
  intros w w' v v'.
  assert (A0 : setup_database w = (inr InterfaceError, w')) by (vm_compute; reflexivity).
  assert (B0 : setup_database v = (inr InterfaceError, v')) by (vm_compute; reflexivity).
  exact (conj (conj A0 (setup_database_failure _ _ _ A0))
              (conj B0 (setup_database_failure _ _ _ B0))).
Defined.

Lemma main_server_down_witness :
  let w := mkWorld (fun _ => None) false None false None None 0 [] [] false in
  (w_server_up w = false /\ w_conn w = false) /\
  main_block iso_date_in (fun _ => EmptyString) w =
  (inl tt, set_out (w_out w ++ [LConnError OperationalError])
             (set_ops (w_ops w ++ [OpConnect]) w)).
Proof.
  intros w.
  assert (A0 : w_server_up w = false) by reflexivity.
  assert (A1 : w_conn w = false) by reflexivity.
  exact (conj (conj A0 A1) (main_server_down _ _ _ A0 A1)).
Defined.

Lemma main_block_closes_connection_witness :
  let w := ready_world ex_file in
  let w' := snd (main_block iso_date_in (fun _ => EmptyString) w) in
  w_server_up w = true /\ w_conn w' = false /\
  exists ops out, w_ops w' = ops ++ [OpClose] /\ w_out w' = out ++ [LClosed].
Proof.
  intros w w'.
  assert (A0 : w_server_up w = true) by reflexivity.
  destruct (main_block_closes_connection iso_date_in (fun _ => EmptyString) w) as [C K].
  exact (conj A0 (conj C (K A0))).
Defined.

(** X15 with a row whose customer id is too long for [VARCHAR(100)] on a
    link that drops right after it, so that the rollback loses the link;
    and with a link that drops at CREATE TABLE, so that the setup fails,
    the connection is closed, and the rollback of the main block raises
    [InterfaceError]. *)
Lemma main_block_escape_witness :
  let long_id := String.string_of_list_ascii (repeat "x"%char 101) in
  let f := mkFile [CSV_HEADERS; ex_row "1" long_id "Alice" "Fox" "Acme" ""]%string false in
  let w := mkWorld (fun n => if String.eqb n CSV_FILE_TO_PROCESS then Some f else None)
             true (Some 2) false None None 0 [] [] false in
  let w' := snd (main_block iso_date_in (fun _ => EmptyString) w) in
  let v := world_of ex_file (Some 0) in
  let v' := snd (main_block iso_date_in (fun _ => EmptyString) v) in
  (main_block iso_date_in (fun _ => EmptyString) w = (inr OperationalError, w') /\
   (OperationalError = OperationalError \/ OperationalError = InterfaceError) /\
   w_conn w' = false /\
   exists e0 ops out, e0 <> OperationalError /\
     w_ops w' = ops ++ [OpRollback; OpClose] /\
     w_out w' = out ++ [LRollingBack e0; LClosed]) /\
  (main_block iso_date_in (fun _ => EmptyString) v = (inr InterfaceError, v') /\
   (InterfaceError = OperationalError \/ InterfaceError = InterfaceError) /\
   w_conn v' = false /\
   exists e0 ops out, e0 <> OperationalError /\
     w_ops v' = ops ++ [OpRollback; OpClose] /\
     w_out v' = out ++ [LRollingBack e0; LClosed]).
Proof.
  intros long_id f w w' v v'.
  assert (A0 : main_block iso_date_in (fun _ => EmptyString) w = (inr OperationalError, w'))
    by (vm_compute; reflexivity).
  assert (B0 : main_block iso_date_in (fun _ => EmptyString) v = (inr InterfaceError, v'))
    by (vm_compute; reflexivity).
  exact (conj (conj A0 (main_block_escape _ _ _ _ _ A0))
              (conj B0 (main_block_escape _ _ _ _ _ B0))).
Defined.
